(** * Claudiatron multi-project workspace: registry service, IPC handlers
      and the [MultiProjectLayout] orchestrator

    Shallow embedding of
    - [src/main/database/services/UserProjectService.ts] (the registry over
      the [user_projects] table),
    - [src/main/api/userProjects.ts] (the IPC handlers built on it),
    - the [MultiProjectLayout] React component (project lists, session
      lifecycle, panel layout),
    followed by the properties of the workspace specification.

    Conventions.
    - A JavaScript string is modelled as a [string] whose characters are
      the code units U+0000 to U+00FF (ASCII and the Latin-1 supplement).
      On such text [toLowerCase] works letter by letter (A-Z, and the
      accented capitals U+00C0 to U+00DE except the multiplication sign,
      move up by 32; nothing else changes, and no letter of the range
      depends on its neighbours) and the white space that [parseInt]
      skips is the characters 9 to 13, the space and the no-break space.
      Text with code units from U+0100 on is outside the model.
    - A JavaScript number is modelled as the integer it holds ([Z]); [NaN]
      is [None].  The model follows the engine on the safe integers
      (absolute value below 2^53), where [toString] gives the decimal
      digits and [parseInt] is exact.
    - React state is one record [State]; the setters of [useState] are the
      functions [setSessions], [setCurrentSession], ...  An event handler
      runs to completion as one transition (the awaits inside a handler are
      not interleaved with other handlers).
    - A handler returns the new state together with the list of requests it
      sent through [api]; what [api] answered is an argument of the handler
      ([None] stands for a rejected promise).
    - [Date.now()] is an argument ([now], milliseconds); the reads of the
      clock inside one handler give the same value. *)

From Stdlib Require Import ZArith NArith Ascii String List.
From stdpp Require Import gmap strings list pretty.

Local Open Scope string_scope.
Local Open Scope list_scope.

(** ** JavaScript string primitives used by the sources *)

Module JsString.

(** lower case of one code unit below U+0100: the capitals A-Z
    (65 to 90) and the accented capitals U+00C0 to U+00DE (192 to 222),
    without the multiplication sign U+00D7 (215), have their small letter
    32 places further *)
Definition lower_char (c : ascii) : ascii :=
  let n := N_of_ascii c in
  if ((65 <=? n) && (n <=? 90)
      || (192 <=? n) && (n <=? 222) && negb (n =? 215))%N
  then ascii_of_N (n + 32) else c.

(** [String.prototype.toLowerCase] *)
Fixpoint toLowerCase (s : string) : string :=
  match s with
  | EmptyString => EmptyString
  | String c s' => String (lower_char c) (toLowerCase s')
  end.

(** [String.prototype.startsWith] *)
Fixpoint startsWith (s q : string) {struct q} : bool :=
  match q, s with
  | EmptyString, _ => true
  | String _ _, EmptyString => false
  | String b q', String a s' => bool_decide (a = b) && startsWith s' q'
  end.

(** [String.prototype.includes] *)
Fixpoint includes (s q : string) : bool :=
  startsWith s q ||
  match s with
  | EmptyString => false
  | String _ s' => includes s' q
  end.

(** [s.split(/[/\\]/).pop()]: the text after the last slash or backslash *)
Definition is_sep (c : ascii) : bool :=
  bool_decide (c = "/"%char) || bool_decide (c = "\"%char).

Fixpoint last_segment_from (acc s : string) : string :=
  match s with
  | EmptyString => acc
  | String c s' =>
      if is_sep c then last_segment_from EmptyString s'
      else last_segment_from (acc +:+ String c EmptyString) s'
  end.

Definition last_segment (s : string) : string :=
  last_segment_from EmptyString s.

(** truthiness of a string: the empty string is falsy *)
Definition nonempty (s : string) : bool :=
  match s with EmptyString => false | _ => true end.

(** truthiness of an optional boolean property ([undefined] is falsy) *)
Definition truthy (b : option bool) : bool := default false b.

End JsString.

Import JsString.

(** ** Data model of the renderer ([Project] and [Session] of [@/lib/api]) *)

Module Project.
Record t : Type := mk {
  id : string;
  name : option string;
  path : string;
  sessions : list string;
  created_at : Z;
  isUserProject : option bool;
  databaseId : option N
}.
End Project.

Module Session.
(** [oid] is the identity of the JavaScript object (its allocation
    number): two records with the same [oid] are the same reference.
    Session objects are never mutated after they are built, so a record
    carrying its own [oid] describes the heap cell completely. *)
Record t : Type := mk {
  oid : nat;
  id : string;
  project_id : string;
  project_path : string;
  created_at : Z;
  first_message : option string;
  isTemporary : option bool;
  isNewlyCreated : option bool
}.
End Session.

Global Instance Project_eq_dec : EqDecision Project.t.
Proof. solve_decision. Defined.

Global Instance Session_eq_dec : EqDecision Session.t.
Proof. solve_decision. Defined.

(** ** [parseInt] with no radix argument (ECMAScript 19.2.5) *)

Module ParseInt.

(** white space and line terminators below U+0100: tab, line feed,
    vertical tab, form feed, carriage return (9 to 13), space (32) and
    no-break space (160) *)
Definition is_white (c : ascii) : bool :=
  let n := N_of_ascii c in
  ((9 <=? n) && (n <=? 13) || (n =? 32) || (n =? 160))%N.

Fixpoint trimStart (s : string) : string :=
  match s with
  | String c s' => if is_white c then trimStart s' else s
  | EmptyString => EmptyString
  end.

(** value of a character as a digit: 0-9, then a-z and A-Z for 10-35 *)
Definition digit_value (c : ascii) : option N :=
  let n := N_of_ascii c in
  if ((48 <=? n) && (n <=? 57))%N then Some (n - 48)%N
  else if ((97 <=? n) && (n <=? 122))%N then Some (n - 87)%N
  else if ((65 <=? n) && (n <=? 90))%N then Some (n - 55)%N
  else None.

(** the longest prefix of [s] made of radix-[R] digits, as digit values *)
Fixpoint digits_prefix (R : N) (s : string) : list N :=
  match s with
  | EmptyString => []
  | String c s' =>
      match digit_value c with
      | Some d => if (d <? R)%N then d :: digits_prefix R s' else []
      | None => []
      end
  end.

Definition digits_value (R : N) (ds : list N) : N :=
  fold_left (fun acc d => (acc * R + d)%N) ds 0%N.

(** [None] is [NaN].  The result is the exact integer, which is what the
    engine returns when that integer is a safe one. *)
Definition parseInt_string (inputString : string) : option Z :=
  let S0 := trimStart inputString in
  let '(sign, S1) :=
    match S0 with
    | String "-" r => ((-1)%Z, r)
    | String "+" r => (1%Z, r)
    | _ => (1%Z, S0)
    end in
  let '(R, S2) :=
    match S1 with
    | String "0" (String "x" r) => (16%N, r)
    | String "0" (String "X" r) => (16%N, r)
    | _ => (10%N, S1)
    end in
  match digits_prefix R S2 with
  | [] => None
  | ds => Some (sign * Z.of_N (digits_value R ds))%Z
  end.

(** [parseInt(v)] for a value that is a string or [undefined]:
    [ToString(undefined)] is ["undefined"]. *)
Definition parseInt (v : option string) : option Z :=
  parseInt_string (default "undefined" v).

(** [n || d] for a number [n]: [NaN] and [0] are falsy *)
Definition number_or (n : option Z) (d : Z) : Z :=
  match n with
  | Some v => if (v =? 0)%Z then d else v
  | None => d
  end.

End ParseInt.

Import ParseInt.

(** ** Array helper *)

(** [Array.prototype.findIndex]: the index of the first match, or -1 *)
Definition findIndex {A} (P : A → bool) (l : list A) : Z :=
  match list_find (fun x => P x = true) l with
  | Some (i, _) => Z.of_nat i
  | None => (-1)%Z
  end.

(** ** Results of fallible calls: a value, or the message of the thrown
       [Error] *)

Inductive result (A : Type) : Type :=
| Ok (a : A)
| Err (message : string).
Arguments Ok {A} a.
Arguments Err {A} message.

(** ** The registry: [UserProjectService] over the [user_projects] table *)

Module UserProject.
(** the [UserProject] entity; dates are milliseconds since the epoch *)
Record t : Type := mk {
  id : N;
  name : string;
  path : string;
  description : option string;
  is_active : bool;
  created_at : Z;
  updated_at : Z
}.
End UserProject.

Module UserProjectCreateData.
Record t : Type := mk {
  name : string;
  path : string;
  description : option string;
  is_active : option bool
}.
End UserProjectCreateData.

Module UserProjectUpdateData.
(** [Partial<UserProjectCreateData>] with the key; [None] is an absent
    property *)
Record t : Type := mk {
  id : N;
  name : option string;
  path : option string;
  description : option string;
  is_active : option bool
}.
End UserProjectUpdateData.

Global Instance UserProject_eq_dec : EqDecision UserProject.t.
Proof. solve_decision. Defined.

Module UserProjectService.

(** Modelled from the spec: the TypeORM repository behind
    [getRepository] (the "project-registry persistence layer" with
    create, read and soft-delete of records).  The table is the list of
    its rows in insertion order, with the next value of the generated
    primary key. *)
Record Repository : Type := mkRepository {
  rows : list UserProject.t;
  next_id : N
}.

Definition empty : Repository := mkRepository [] 1.

(** [repository.save] of a new entity: the key is generated and both
    date columns are set *)
Definition save_new (data : UserProjectCreateData.t) (is_active : bool)
    (now : Z) (db : Repository) : Repository * UserProject.t :=
  let row :=
    UserProject.mk (next_id db)
      (UserProjectCreateData.name data)
      (UserProjectCreateData.path data)
      (UserProjectCreateData.description data)
      is_active now now in
  (mkRepository (rows db ++ [row]) (next_id db + 1), row).

(** [repository.save] of a loaded entity: the row with its key is
    replaced, and the update date is set when a column changed *)
Definition save_existing (e : UserProject.t) (now : Z) (db : Repository)
    : Repository :=
  mkRepository
    (map (fun r =>
            if bool_decide (UserProject.id r = UserProject.id e) then
              if bool_decide (r = e) then r
              else UserProject.mk (UserProject.id e) (UserProject.name e)
                     (UserProject.path e) (UserProject.description e)
                     (UserProject.is_active e) (UserProject.created_at e) now
            else r)
         (rows db))
    (next_id db).

(** [repository.findOne({ where })] *)
Definition findOne (where_ : UserProject.t → bool) (db : Repository)
    : option UserProject.t :=
  List.find where_ (rows db).

(** [order: { created_at: 'DESC' }], by insertion *)
Fixpoint insert_desc (r : UserProject.t) (l : list UserProject.t)
    : list UserProject.t :=
  match l with
  | [] => [r]
  | x :: l' =>
      if (UserProject.created_at x <? UserProject.created_at r)%Z
      then r :: x :: l'
      else x :: insert_desc r l'
  end.

Definition order_created_at_desc (l : list UserProject.t)
    : list UserProject.t :=
  foldr insert_desc [] l.

(** Create a new user project *)
Definition createUserProject (data : UserProjectCreateData.t) (now : Z)
    (db : Repository) : Repository * UserProject.t :=
  save_new data (default true (UserProjectCreateData.is_active data)) now db.

(** Get all user projects *)
Definition getAllUserProjects (db : Repository) : list UserProject.t :=
  order_created_at_desc
    (List.filter (fun r => UserProject.is_active r) (rows db)).

(** Get user project by ID *)
Definition getUserProjectById (id : N) (db : Repository)
    : option UserProject.t :=
  findOne (fun r => bool_decide (UserProject.id r = id)) db.

(** Get user project by path *)
Definition getUserProjectByPath (path : string) (db : Repository)
    : option UserProject.t :=
  findOne (fun r => bool_decide (UserProject.path r = path)) db.

(** Delete user project (soft delete by setting is_active to false) *)
Definition deleteUserProject (id : N) (now : Z) (db : Repository)
    : result Repository :=
  match findOne (fun r => bool_decide (UserProject.id r = id)) db with
  | None => Err ("User project with ID " +:+ pretty id +:+ " not found")
  | Some userProject =>
      let userProject' :=
        UserProject.mk (UserProject.id userProject)
          (UserProject.name userProject) (UserProject.path userProject)
          (UserProject.description userProject) false
          (UserProject.created_at userProject)
          (UserProject.updated_at userProject) in
      Ok (save_existing userProject' now db)
  end.

(** Hard delete user project *)
Definition hardDeleteUserProject (id : N) (db : Repository) : Repository :=
  mkRepository
    (List.filter (fun r => negb (bool_decide (UserProject.id r = id)))
       (rows db))
    (next_id db).

(** Check if project path already exists *)
Definition projectPathExists (path : string) (db : Repository) : bool :=
  let count :=
    length (List.filter
              (fun r => bool_decide (UserProject.path r = path)
                        && UserProject.is_active r) (rows db)) in
  bool_decide (0 < count).

(** Update user project: [Object.assign(userProject, data)], then save *)
Definition updateUserProject (data : UserProjectUpdateData.t) (now : Z)
    (db : Repository) : Repository * result UserProject.t :=
  match findOne
          (fun r => bool_decide (UserProject.id r = UserProjectUpdateData.id data))
          db with
  | None =>
      (db, Err ("User project with ID "
                +:+ pretty (UserProjectUpdateData.id data) +:+ " not found"))
  | Some userProject =>
      let assigned :=
        UserProject.mk (UserProjectUpdateData.id data)
          (default (UserProject.name userProject)
             (UserProjectUpdateData.name data))
          (default (UserProject.path userProject)
             (UserProjectUpdateData.path data))
          (match UserProjectUpdateData.description data with
           | Some d => Some d
           | None => UserProject.description userProject
           end)
          (default (UserProject.is_active userProject)
             (UserProjectUpdateData.is_active data))
          (UserProject.created_at userProject)
          (UserProject.updated_at userProject) in
      let saved :=
        if bool_decide (userProject = assigned) then assigned
        else UserProject.mk (UserProject.id assigned)
               (UserProject.name assigned) (UserProject.path assigned)
               (UserProject.description assigned)
               (UserProject.is_active assigned)
               (UserProject.created_at assigned) now in
      (save_existing assigned now db, Ok saved)
  end.

End UserProjectService.

(** ** The IPC handlers of [setupUserProjectsHandlers] *)

Module UserProjectsApi.
Import UserProjectService.

(** what [fs.access] and [fs.stat] report for a path *)
Inductive FsEntry : Type :=
| Inaccessible
| Accessible (isDirectory : bool).

Global Instance FsEntry_eq_dec : EqDecision FsEntry.
Proof. solve_decision. Defined.

Section Handlers.

(** [encodeProjectPath] of [./claude], which is not part of the sources
    at hand *)
Variable encodeProjectPath : string → string.
Variable fs : string → FsEntry.

(** the view of a registry row given to the renderer *)
Definition to_project (project : UserProject.t) : Project.t :=
  Project.mk
    (encodeProjectPath (UserProject.path project))
    (Some (UserProject.name project))
    (UserProject.path project)
    []
    (UserProject.created_at project / 1000)%Z
    (Some true)
    (Some (UserProject.id project)).

(** [get-user-projects] *)
Definition get_user_projects (db : Repository) : list Project.t :=
  map to_project (getAllUserProjects db).

(** the [try { access; stat; isDirectory } catch] block *)
Definition check_directory (projectPath : string) : result unit :=
  let attempt : result unit :=
    match fs projectPath with
    | Inaccessible => Err "ENOENT"
    | Accessible isDirectory =>
        if negb isDirectory then Err "Path is not a directory" else Ok tt
    end in
  match attempt with
  | Ok _ => Ok tt
  | Err _ => Err "Cannot access the directory"
  end.

(** [add-user-project] *)
Definition add_user_project (projectPath : string)
    (projectName : option string) (now : Z) (db : Repository)
    : Repository * result Project.t :=
  match getUserProjectByPath projectPath db with
  | Some _ => (db, Err "Project already exists in the list")
  | None =>
      let from_path :=
        let seg := last_segment projectPath in
        if nonempty seg then seg else "Unnamed Project" in
      let name :=
        match projectName with
        | Some n => if nonempty n then n else from_path
        | None => from_path
        end in
      match check_directory projectPath with
      | Err e => (db, Err e)
      | Ok _ =>
          let projectData :=
            UserProjectCreateData.mk name projectPath
              (Some ("User project: " +:+ name)) None in
          let '(db', project) := createUserProject projectData now db in
          (db', Ok (to_project project))
      end
  end.

(** [remove-user-project] *)
Definition remove_user_project (projectId : N) (now : Z) (db : Repository)
    : Repository * result bool :=
  match deleteUserProject projectId now db with
  | Ok db' => (db', Ok true)
  | Err e => (db, Err e)
  end.

(** what [dialog.showOpenDialog] returns *)
Record OpenDialogResult : Type := mkOpenDialogResult {
  canceled : bool;
  filePaths : list string
}.

(** what [add-user-project-by-dialog] returns *)
Inductive DialogOutcome : Type :=
| DialogCanceled
| DialogAdded (project : Project.t).

(** [add-user-project-by-dialog] *)
Definition add_user_project_by_dialog (picked : OpenDialogResult) (now : Z)
    (db : Repository) : Repository * result DialogOutcome :=
  if canceled picked || Nat.eqb (length (filePaths picked)) 0
  then (db, Ok DialogCanceled)
  else
    match filePaths picked with
    | [] => (db, Ok DialogCanceled)
    | projectPath :: _ =>
        match getUserProjectByPath projectPath db with
        | Some _ => (db, Err "Project already exists in the list")
        | None =>
            let projectName :=
              let seg := last_segment projectPath in
              if nonempty seg then seg else "Unnamed Project" in
            let attempt : result unit :=
              match fs projectPath with
              | Inaccessible => Err "ENOENT"
              | Accessible isDirectory =>
                  if negb isDirectory
                  then Err "Selected path is not a directory" else Ok tt
              end in
            match attempt with
            | Err _ => (db, Err "Cannot access the selected directory")
            | Ok _ =>
                let projectData :=
                  UserProjectCreateData.mk projectName projectPath
                    (Some ("User project: " +:+ projectName)) None in
                let '(db', project) :=
                  createUserProject projectData now db in
                (db', Ok (DialogAdded (to_project project)))
            end
        end
    end.

(** [update-user-project] *)
Definition update_user_project (data : UserProjectUpdateData.t) (now : Z)
    (db : Repository) : Repository * result UserProject.t :=
  updateUserProject data now db.

End Handlers.

End UserProjectsApi.

(** ** The [MultiProjectLayout] component *)

Module UIState.
Record t : Type := mk {
  leftPanelCollapsed : bool;
  rightPanelCollapsed : bool;
  leftPanelWidth : Z;
  rightPanelWidth : Z;
  claudeProjectsCollapsed : bool
}.

(** [Partial<UIState>] *)
Record partial : Type := mkPartial {
  p_leftPanelCollapsed : option bool;
  p_rightPanelCollapsed : option bool;
  p_leftPanelWidth : option Z;
  p_rightPanelWidth : option Z;
  p_claudeProjectsCollapsed : option bool
}.

Definition nothing : partial := mkPartial None None None None None.

(** [{ ...prev, ...newState }] *)
Definition merge (prev : t) (newState : partial) : t :=
  mk (default (leftPanelCollapsed prev) (p_leftPanelCollapsed newState))
     (default (rightPanelCollapsed prev) (p_rightPanelCollapsed newState))
     (default (leftPanelWidth prev) (p_leftPanelWidth newState))
     (default (rightPanelWidth prev) (p_rightPanelWidth newState))
     (default (claudeProjectsCollapsed prev)
        (p_claudeProjectsCollapsed newState)).
End UIState.

Definition DEFAULT_UI_STATE : UIState.t :=
  UIState.mk false false 300 300 true.

(** requests sent through [api] *)
Inductive ApiCall : Type :=
| GetSettings (keys : list string)
| SetSettings (settings : gmap string string)
| SetSetting (key value : string)
| ListProjects
| GetUserProjects
| GetProjectSessions (projectId : string).

(** Modelled from the spec: the Layout State Store behind [api.setSetting]
    and [api.setSettings], a durable key/value mapping of strings written
    incrementally (only the keys of the request change).  This is the
    effect of a request that succeeds; a rejected write is caught and
    logged by the handlers and changes nothing. *)
Definition store_apply (σ : gmap string string) (c : ApiCall)
    : gmap string string :=
  match c with
  | SetSetting key value => <[key := value]> σ
  | SetSettings settings => settings ∪ σ
  | _ => σ
  end.

Definition store_run (calls : list ApiCall) (σ : gmap string string)
    : gmap string string :=
  fold_left store_apply calls σ.

Definition bool_toString (b : bool) : string :=
  if b then "true" else "false".

(** [Number.isSafeInteger] *)
Definition isSafeInteger (n : Z) : bool :=
  (Z.abs n <=? 2 ^ 53 - 1)%Z.

(** [Number.prototype.toString] of an integer: below 10^21 in absolute
    value, so for every safe integer, the decimal digits after the sign *)
Definition number_toString (n : Z) : string := pretty n.

(** the engine assigns UUIDs to sessions (8-4-4-4-12 hexadecimal digits) *)
Definition is_hex (c : ascii) : bool :=
  let n := N_of_ascii c in
  ((48 <=? n) && (n <=? 57) || (97 <=? n) && (n <=? 102)
   || (65 <=? n) && (n <=? 70))%N.

Fixpoint uuid_chars (i : nat) (s : string) : bool :=
  match s with
  | EmptyString => Nat.eqb i 36
  | String c s' =>
      (if Nat.eqb i 8 || Nat.eqb i 13 || Nat.eqb i 18 || Nat.eqb i 23
       then bool_decide (c = "-"%char)
       else is_hex c)
      && uuid_chars (S i) s'
  end.

Definition is_uuid (s : string) : bool := uuid_chars 0 s.

Module Layout.

Record State : Type := mkState {
  uiState : UIState.t;
  searchQuery : string;
  projects : list Project.t;
  userProjects : list Project.t;
  claudeProjects : list Project.t;
  sessions : list Session.t;
  loading : bool;
  currentProject : option Project.t;
  currentSession : option Session.t;
  (** number of session objects allocated so far *)
  nextOid : nat
}.

(** the [useState] initial values *)
Definition initial : State :=
  mkState DEFAULT_UI_STATE "" [] [] [] [] true None None 0.

Definition setUIState (v : UIState.t) (st : State) : State :=
  mkState v (searchQuery st) (projects st) (userProjects st)
    (claudeProjects st) (sessions st) (loading st) (currentProject st)
    (currentSession st) (nextOid st).
Definition setSearchQuery (v : string) (st : State) : State :=
  mkState (uiState st) v (projects st) (userProjects st)
    (claudeProjects st) (sessions st) (loading st) (currentProject st)
    (currentSession st) (nextOid st).
Definition setProjects (v : list Project.t) (st : State) : State :=
  mkState (uiState st) (searchQuery st) v (userProjects st)
    (claudeProjects st) (sessions st) (loading st) (currentProject st)
    (currentSession st) (nextOid st).
Definition setUserProjects (v : list Project.t) (st : State) : State :=
  mkState (uiState st) (searchQuery st) (projects st) v
    (claudeProjects st) (sessions st) (loading st) (currentProject st)
    (currentSession st) (nextOid st).
Definition setClaudeProjects (v : list Project.t) (st : State) : State :=
  mkState (uiState st) (searchQuery st) (projects st) (userProjects st)
    v (sessions st) (loading st) (currentProject st)
    (currentSession st) (nextOid st).
Definition setSessions (v : list Session.t) (st : State) : State :=
  mkState (uiState st) (searchQuery st) (projects st) (userProjects st)
    (claudeProjects st) v (loading st) (currentProject st)
    (currentSession st) (nextOid st).
Definition setLoading (v : bool) (st : State) : State :=
  mkState (uiState st) (searchQuery st) (projects st) (userProjects st)
    (claudeProjects st) (sessions st) v (currentProject st)
    (currentSession st) (nextOid st).
Definition setCurrentProject (v : option Project.t) (st : State) : State :=
  mkState (uiState st) (searchQuery st) (projects st) (userProjects st)
    (claudeProjects st) (sessions st) (loading st) v
    (currentSession st) (nextOid st).
Definition setCurrentSession (v : option Session.t) (st : State) : State :=
  mkState (uiState st) (searchQuery st) (projects st) (userProjects st)
    (claudeProjects st) (sessions st) (loading st) (currentProject st)
    v (nextOid st).
Definition allocated (n : nat) (st : State) : State :=
  mkState (uiState st) (searchQuery st) (projects st) (userProjects st)
    (claudeProjects st) (sessions st) (loading st) (currentProject st)
    (currentSession st) (nextOid st + n).

(** the session objects built from a reply are new objects *)
Definition with_oid (o : nat) (s : Session.t) : Session.t :=
  Session.mk o (Session.id s) (Session.project_id s)
    (Session.project_path s) (Session.created_at s)
    (Session.first_message s) (Session.isTemporary s)
    (Session.isNewlyCreated s).

Fixpoint fresh_objects (n : nat) (l : list Session.t) : list Session.t :=
  match l with
  | [] => []
  | s :: l' => with_oid n s :: fresh_objects (S n) l'
  end.

(** *** Panel layout persistence *)

(** Load UI state from settings *)
Definition loadUIState (reply : option (gmap string string)) (st : State)
    : State * list ApiCall :=
  let calls :=
    [GetSettings ["ui.leftPanel.collapsed"; "ui.rightPanel.collapsed";
                  "ui.leftPanel.width"; "ui.rightPanel.width";
                  "ui.claudeProjects.collapsed"; "ui.currentProject.id";
                  "ui.currentSession.id"]] in
  match reply with
  | None => (st, calls)
  | Some settings =>
      let newUIState :=
        UIState.mk
          (bool_decide (settings !! "ui.leftPanel.collapsed" = Some "true"))
          (bool_decide (settings !! "ui.rightPanel.collapsed" = Some "true"))
          (number_or (parseInt (settings !! "ui.leftPanel.width"))
             (UIState.leftPanelWidth DEFAULT_UI_STATE))
          (number_or (parseInt (settings !! "ui.rightPanel.width"))
             (UIState.rightPanelWidth DEFAULT_UI_STATE))
          (negb (bool_decide
                   (settings !! "ui.claudeProjects.collapsed" = Some "false")))
      in
      (setUIState newUIState st, calls)
  end.

(** Save UI state to settings *)
Definition saveUIState (newState : UIState.partial) : list ApiCall :=
  let s0 : gmap string string := ∅ in
  let s1 := match UIState.p_leftPanelCollapsed newState with
            | Some b => <["ui.leftPanel.collapsed" := bool_toString b]> s0
            | None => s0 end in
  let s2 := match UIState.p_rightPanelCollapsed newState with
            | Some b => <["ui.rightPanel.collapsed" := bool_toString b]> s1
            | None => s1 end in
  let s3 := match UIState.p_leftPanelWidth newState with
            | Some w => <["ui.leftPanel.width" := number_toString w]> s2
            | None => s2 end in
  let s4 := match UIState.p_rightPanelWidth newState with
            | Some w => <["ui.rightPanel.width" := number_toString w]> s3
            | None => s3 end in
  let s5 := match UIState.p_claudeProjectsCollapsed newState with
            | Some b => <["ui.claudeProjects.collapsed" := bool_toString b]> s4
            | None => s4 end in
  [SetSettings s5].

(** Toggle panel collapse *)
Definition toggle (newState : UIState.partial) (st : State)
    : State * list ApiCall :=
  (setUIState (UIState.merge (uiState st) newState) st, saveUIState newState).

Definition toggleLeftPanel (st : State) : State * list ApiCall :=
  toggle (UIState.mkPartial
            (Some (negb (UIState.leftPanelCollapsed (uiState st))))
            None None None None) st.

Definition toggleRightPanel (st : State) : State * list ApiCall :=
  toggle (UIState.mkPartial None
            (Some (negb (UIState.rightPanelCollapsed (uiState st))))
            None None None) st.

Definition toggleClaudeProjects (st : State) : State * list ApiCall :=
  toggle (UIState.mkPartial None None None None
            (Some (negb (UIState.claudeProjectsCollapsed (uiState st))))) st.

(** *** Project lists *)

(** Load projects: [claudeReply] answers [api.listProjects],
    [userReply] answers [api.getUserProjects] *)
Definition loadProjects (claudeReply userReply : option (list Project.t))
    (st : State) : State * list ApiCall :=
  let st := setLoading true st in
  match claudeReply with
  | None => (setLoading false st, [ListProjects])
  | Some claudeProjects =>
      match userReply with
      | None => (setLoading false st, [ListProjects; GetUserProjects])
      | Some userProjectsData =>
          let userProjects := userProjectsData in
          let allProjects := userProjects ++ claudeProjects in
          let st := setProjects allProjects st in
          let st := setUserProjects userProjects st in
          let st := setClaudeProjects claudeProjects st in
          (setLoading false st, [ListProjects; GetUserProjects])
      end
  end.

(** the predicate of both [filter] calls *)
Definition matches (searchQuery : string) (project : Project.t) : bool :=
  includes (toLowerCase (Project.path project)) (toLowerCase searchQuery)
  || includes (toLowerCase (Project.id project)) (toLowerCase searchQuery).

(** Filter projects based on search *)
Definition filteredUserProjects (st : State) : list Project.t :=
  List.filter (matches (searchQuery st)) (userProjects st).

Definition filteredClaudeProjects (st : State) : list Project.t :=
  List.filter (matches (searchQuery st)) (claudeProjects st).

(** *** Selection *)

(** Load sessions for current project *)
Definition loadSessions (project : Project.t)
    (reply : option (list Session.t)) (st : State) : State * list ApiCall :=
  let calls := [GetProjectSessions (Project.id project)] in
  match reply with
  | Some projectSessions =>
      (allocated (length projectSessions)
         (setSessions (fresh_objects (nextOid st) projectSessions) st),
       calls)
  | None => (setSessions [] st, calls)
  end.

(** Handle project selection *)
Definition handleProjectSelect (project : Project.t)
    (reply : option (list Session.t)) (st : State) : State * list ApiCall :=
  let st := setCurrentProject (Some project) st in
  let st := setCurrentSession None st in
  let '(st, calls) := loadSessions project reply st in
  (st, calls ++ [SetSetting "ui.currentProject.id" (Project.id project)]).

(** Handle session selection *)
Definition handleSessionSelect (session : Session.t) (st : State)
    : State * list ApiCall :=
  (setCurrentSession (Some session) st,
   [SetSetting "ui.currentSession.id" (Session.id session)]).

(** Create new session for current project *)
Definition handleCreateNewSession (now : Z) (st : State)
    : State * list ApiCall :=
  match currentProject st with
  | None => (st, [])
  | Some currentProject =>
      let tempSessionId := "new-session-" +:+ pretty now in
      let tempSession :=
        Session.mk (nextOid st)
          tempSessionId
          (Project.id currentProject)
          (Project.path currentProject)
          (now / 1000)%Z
          None
          (Some true)
          None in
      (allocated 1 (setCurrentSession (Some tempSession) st), [])
  end.

(** *** What is rendered *)

(** the [key] of the [ClaudeCodeSession] element; [None] when the element
    is not rendered *)
Definition ClaudeCodeSession_key (st : State) : option string :=
  match currentProject st, currentSession st with
  | Some currentProject, Some currentSession =>
      Some (if truthy (Session.isTemporary currentSession)
            then "temp-" +:+ Project.id currentProject
            else Session.id currentSession)
  | _, _ => None
  end.

(** the [session] property of the [ClaudeCodeSession] element *)
Definition ClaudeCodeSession_session (st : State) : option Session.t :=
  match currentProject st, currentSession st with
  | Some _, Some currentSession =>
      if truthy (Session.isTemporary currentSession) then None
      else Some currentSession
  | _, _ => None
  end.

(** [onBack] of the [ClaudeCodeSession] element *)
Definition onBack (st : State) : State := setCurrentSession None st.

(** [onSessionCreated] of the [ClaudeCodeSession] element built by the
    render that saw the state [render].  The function closes over the
    [currentSession] and [currentProject] of that render: the guard and
    the project fields of the new entry are read from them.  The two
    updaters ([prev => ...]) receive the state at the time of the call,
    [st].  The element is built only while a project and a session are
    selected. *)
Definition onSessionCreated_of (render : State) (newSessionId : string)
    (now : Z) (st : State) : State :=
  match currentProject render, currentSession render with
  | Some currentProject, Some currentSession =>
      if truthy (Session.isTemporary currentSession) then
        let newSession :=
          Session.mk (nextOid st)
            newSessionId
            (Project.id currentProject)
            (Project.path currentProject)
            (now / 1000)%Z
            None
            None
            (Some true) in
        let st1 :=
          setSessions
            (newSession ::
             List.filter
               (fun s => negb (bool_decide (Session.id s = newSessionId)))
               (sessions st))
            st in
        let st2 :=
          setCurrentSession
            (match Layout.currentSession st1 with
             | Some prev =>
                 Some (Session.mk (S (nextOid st))
                         newSessionId
                         (Session.project_id prev)
                         (Session.project_path prev)
                         (Session.created_at prev)
                         (Session.first_message prev)
                         (Session.isTemporary prev)
                         (Some true))
             | None => None
             end)
            st1 in
        allocated 2 st2
      else st
  | _, _ => st
  end.

(** the callback of the latest render: the one the element holds while
    the state is [st] *)
Definition onSessionCreated (newSessionId : string) (now : Z) (st : State)
    : State :=
  onSessionCreated_of st newSessionId now st.

(** the list shown in the session history panel: combine current session
    (if temporary) with existing sessions *)
Definition allSessions (st : State) : list Session.t :=
  let allSessions := sessions st in
  match currentSession st with
  | Some currentSession =>
      if truthy (Session.isTemporary currentSession) then
        let existingIndex :=
          findIndex
            (fun s => bool_decide (Session.id s = Session.id currentSession))
            allSessions in
        if (existingIndex =? -1)%Z then currentSession :: allSessions
        else allSessions
      else allSessions
  | None => allSessions
  end.

(** *** Registry actions of the project panel *)

(** requests sent through [api], the registry ones included *)
Inductive Request : Type :=
| Api (call : ApiCall)
| AddUserProjectByDialog
| RemoveUserProject (databaseId : N)
| CreateUserProjectSession (projectPath : string).

(** the reply to [api.addUserProjectByDialog] *)
Record AddReply : Type := mkAddReply {
  reply_canceled : bool;
  reply_project : option Project.t
}.

(** Add user project: [reply] answers the dialog request, the two others
    answer the reload *)
Definition handleAddUserProject (reply : option AddReply)
    (claudeReply userReply : option (list Project.t)) (st : State)
    : State * list Request :=
  match reply with
  | None => (st, [AddUserProjectByDialog])
  | Some result =>
      if negb (reply_canceled result)
         && bool_decide (is_Some (reply_project result))
      then
        let '(st', calls) := loadProjects claudeReply userReply st in
        (st', AddUserProjectByDialog :: map Api calls)
      else (st, [AddUserProjectByDialog])
  end.

(** Remove user project: [confirmed] is the answer to [window.confirm],
    [removed] tells whether [api.removeUserProject] succeeded.  A key that
    is absent or zero is falsy. *)
Definition handleRemoveUserProject (project : Project.t) (confirmed : bool)
    (removed : bool) (claudeReply userReply : option (list Project.t))
    (st : State) : State * list Request :=
  if confirmed then
    match Project.databaseId project with
    | Some databaseId =>
        if (databaseId =? 0)%N then (st, [])
        else if removed then
          let '(st', calls) := loadProjects claudeReply userReply st in
          (st', RemoveUserProject databaseId :: map Api calls)
        else (st, [RemoveUserProject databaseId])
    | None => (st, [])
    end
  else (st, []).

(** Create new session for project (the button of a project entry) *)
Definition handleCreateSession (project : Project.t) (st : State)
    : State * list Request :=
  if truthy (Project.isUserProject project)
  then (st, [CreateUserProjectSession (Project.path project)])
  else (st, []).

(** the [session-created] callbacks of one conversation view, in order *)
Definition callbacks (l : list (string * Z)) (st : State) : State :=
  fold_left (fun st c => onSessionCreated c.1 c.2 st) l st.

End Layout.

(** ** The list items of the panels *)

Module Items.

(** [s.split('/').pop()]: the text after the last slash *)
Fixpoint after_last_slash_from (acc s : string) : string :=
  match s with
  | EmptyString => acc
  | String c s' =>
      if bool_decide (c = "/"%char) then after_last_slash_from EmptyString s'
      else after_last_slash_from (acc +:+ String c EmptyString) s'
  end.

Definition after_last_slash (s : string) : string :=
  after_last_slash_from EmptyString s.

(** [projectName] of [ProjectItem] *)
Definition ProjectItem_projectName (project : Project.t) : string :=
  let seg := after_last_slash (Project.path project) in
  if nonempty seg then seg else Project.id project.

(** [projectName] of [UserProjectItem] *)
Definition UserProjectItem_projectName (project : Project.t) : string :=
  match Project.name project with
  | Some name =>
      if nonempty name then name else ProjectItem_projectName project
  | None => ProjectItem_projectName project
  end.

End Items.

(** ** Vocabulary of the properties *)

(** "Case-insensitive", said without [toLowerCase]: the letters below
    U+0100 that have two cases, capital first.  The accented ones are
    U+00C0 to U+00D6 and U+00D8 to U+00DE with U+00E0 to U+00F6 and U+00F8
    to U+00FE; the sharp s, the y with diaeresis and the micro sign have
    no capital in the range. *)
Definition capital_letters : list ascii :=
  list_ascii_of_string "ABCDEFGHIJKLMNOPQRSTUVWXYZ"
  ++ map ascii_of_nat (seq 192 23 ++ seq 216 7).

Definition small_letters : list ascii :=
  list_ascii_of_string "abcdefghijklmnopqrstuvwxyz"
  ++ map ascii_of_nat (seq 224 23 ++ seq 248 7).

Definition letter_cases : list (ascii * ascii) :=
  combine capital_letters small_letters.

(** the same character, or the two cases of one letter *)
Definition same_letter (c d : ascii) : Prop :=
  c = d ∨ (c, d) ∈ letter_cases ∨ (d, c) ∈ letter_cases.

Global Instance same_letter_dec (c d : ascii) : Decision (same_letter c d).
Proof. unfold same_letter. apply _. Defined.

(** the same text when letter case is ignored *)
Fixpoint equal_ignoring_case (s t : string) : Prop :=
  match s, t with
  | EmptyString, EmptyString => True
  | String c s', String d t' => same_letter c d ∧ equal_ignoring_case s' t'
  | _, _ => False
  end.

(** [q] occurs in [s] when letter case is ignored: some part of [s] is
    [q] up to the case of its letters *)
Definition occurs_ignoring_case (q s : string) : Prop :=
  ∃ pre mid post,
    s = pre +:+ mid +:+ post ∧ equal_ignoring_case mid q.

(** the sessions of a list that carry the placeholder flag *)
Definition placeholders (l : list Session.t) : list Session.t :=
  List.filter (fun s => truthy (Session.isTemporary s)) l.

(** no session of the list carries the placeholder flag *)
Definition confirmed_only (l : list Session.t) : bool :=
  forallb (fun s => negb (truthy (Session.isTemporary s))) l.

(** *** Runs of the component *)

Module Run.
Import Layout.

(** what can happen to the mounted component *)
Inductive Event : Type :=
| LoadUIState (reply : option (gmap string string))
| LoadProjects (claudeReply userReply : option (list Project.t))
| Search (text : string)
| ToggleLeftPanel
| ToggleRightPanel
| ToggleClaudeProjects
| ProjectSelect (project : Project.t) (reply : option (list Session.t))
| SessionSelect (session : Session.t)
| CreateNewSession (now : Z)
| SessionCreated (newSessionId : string) (now : Z)
| Back.

Definition step (e : Event) (st : State) : State * list ApiCall :=
  match e with
  | LoadUIState reply => loadUIState reply st
  | LoadProjects c u => loadProjects c u st
  | Search text => (setSearchQuery text st, [])
  | ToggleLeftPanel => toggleLeftPanel st
  | ToggleRightPanel => toggleRightPanel st
  | ToggleClaudeProjects => toggleClaudeProjects st
  | ProjectSelect project reply => handleProjectSelect project reply st
  | SessionSelect session => handleSessionSelect session st
  | CreateNewSession now => handleCreateNewSession now st
  | SessionCreated newSessionId now =>
      (onSessionCreated newSessionId now st, [])
  | Back => (onBack st, [])
  end.

(** when the rendered page offers the event: a project is picked from
    one of the two filtered lists, a session from the history panel of
    the selected project, the new-session button needs a project, and
    the callbacks of the conversation view need the view.  A reply of
    [api.getProjectSessions] holds sessions of the history, none of
    which carries the placeholder flag. *)
Definition enabled (e : Event) (st : State) : Prop :=
  match e with
  | ProjectSelect project reply =>
      (In project (filteredUserProjects st)
       ∨ In project (filteredClaudeProjects st))
      ∧ confirmed_only (default [] reply) = true
  | SessionSelect session =>
      is_Some (currentProject st) ∧ In session (allSessions st)
  | CreateNewSession _ => is_Some (currentProject st)
  | SessionCreated _ _ | Back =>
      is_Some (currentProject st) ∧ is_Some (currentSession st)
  | _ => True
  end.

(** the states of the component and of the settings store that a run
    can reach, every write to the store succeeding *)
Inductive reachable : State → gmap string string → Prop :=
| reachable_initial σ : reachable initial σ
| reachable_step st σ e :
    reachable st σ → enabled e st →
    reachable (step e st).1 (store_run (step e st).2 σ).

(** what every reachable state satisfies *)
Definition invariant (st : State) (σ : gmap string string) : Prop :=
  confirmed_only (sessions st) = true
  ∧ (∀ s, In s (sessions st) → Session.oid s < nextOid st)
  ∧ (∀ cs, currentSession st = Some cs → Session.oid cs < nextOid st)
  ∧ (∀ cp, currentProject st = Some cp →
           σ !! "ui.currentProject.id" = Some (Project.id cp)).

End Run.

(** *** A small workspace: the registry has [/a], discovery has [/a-other] *)

Module Scenario.
Import Layout UserProjectService UserProjectsApi.

Definition P1 : Project.t :=
  Project.mk "P1" (Some "a") "/a" [] 1730000000 (Some true) (Some 1%N).
Definition P2 : Project.t :=
  Project.mk "P2" None "/a-other" ["S7"] 1720000000 None None.

(** the two sessions of the history of [P1], the first objects allocated *)
Definition S1 : Session.t :=
  Session.mk 0 "S1" "P1" "/a" 1729000000 (Some "hello") None None.
Definition S2 : Session.t :=
  Session.mk 1 "S2" "P1" "/a" 1729500000 (Some "again") None None.

Definition now : Z := 1730000000000.

Definition loaded : State :=
  (loadProjects (Some [P2]) (Some [P1]) initial).1.

(** [P1] selected, its history loaded *)
Definition project_selected : State :=
  (handleProjectSelect P1 (Some [S1; S2]) loaded).1.

(** then the new-session button *)
Definition placeholder_selected : State :=
  (handleCreateNewSession now project_selected).1.

(** the placeholder of [placeholder_selected] *)
Definition placeholder : Session.t :=
  Session.mk 2 "new-session-1730000000000" "P1" "/a" 1730000000 None
    (Some true) None.

(** then the first message is answered with the identifier ["R1"] *)
Definition reconciled : State :=
  onSessionCreated "R1" (now + 4000) placeholder_selected.

(** [P1] selected and the session [s] picked from its history *)
Definition confirmed_selected (s : Session.t) : State :=
  (handleSessionSelect s project_selected).1.

(** the placeholder is left for the session [S1] of the history before
    the engine has answered *)
Definition placeholder_left : State :=
  (handleSessionSelect S1 placeholder_selected).1.

(** a file system where only [/a] is a directory *)
Definition fs (p : string) : FsEntry :=
  if bool_decide (p = "/a") then Accessible true
  else if bool_decide (p = "/a/notes.txt") then Accessible false
  else Inaccessible.

(** slashes become dashes *)
Fixpoint encodeProjectPath (p : string) : string :=
  match p with
  | EmptyString => EmptyString
  | String c p' =>
      String (if bool_decide (c = "/"%char) then "-"%char else c)
        (encodeProjectPath p')
  end.

(** the registry after [/a] was added *)
Definition registered : Repository :=
  (add_user_project encodeProjectPath fs "/a" None now empty).1.

End Scenario.

(** *** Runs of the registry handlers *)

Module RegistryRun.
Import UserProjectService UserProjectsApi.

Section Calls.
Variable encodeProjectPath : string → string.

(** a call of one of the handlers that the project panel uses, with what
    the file system shows for the path at the time of the call *)
Inductive Call : Type :=
| AddByPath (projectPath : string) (projectName : option string)
    (entry : FsEntry) (now : Z)
| AddByDialog (picked : OpenDialogResult) (entry : FsEntry) (now : Z)
| Remove (projectId : N) (now : Z).

Definition call (c : Call) (db : Repository) : Repository :=
  match c with
  | AddByPath projectPath projectName entry now =>
      (add_user_project encodeProjectPath (fun _ => entry)
         projectPath projectName now db).1
  | AddByDialog picked entry now =>
      (add_user_project_by_dialog encodeProjectPath (fun _ => entry)
         picked now db).1
  | Remove projectId now => (remove_user_project projectId now db).1
  end.

Definition run (cs : list Call) (db : Repository) : Repository :=
  fold_left (fun db c => call c db) cs db.

End Calls.

(** keys and paths are unique, keys are positive and not yet generated *)
Definition well_formed (db : Repository) : Prop :=
  NoDup (map UserProject.id (rows db))
  ∧ NoDup (map UserProject.path (rows db))
  ∧ (1 ≤ next_id db)%N
  ∧ ∀ r, In r (rows db) → (1 ≤ UserProject.id r < next_id db)%N.

End RegistryRun.

(** every record has a name *)
Definition named (db : UserProjectService.Repository) : Prop :=
  ∀ r, In r (UserProjectService.rows db) → UserProject.name r ≠ "".

(** the rows are in descending order of creation date *)
Fixpoint created_desc (l : list UserProject.t) : Prop :=
  match l with
  | [] => True
  | x :: l' =>
      (∀ y, In y l' → (UserProject.created_at y ≤ UserProject.created_at x)%Z)
      ∧ created_desc l'
  end.

(** a string of decimal digits *)
Fixpoint all_digits (s : string) : bool :=
  match s with
  | EmptyString => true
  | String c s' =>
      ((48 <=? N_of_ascii c) && (N_of_ascii c <=? 57))%N && all_digits s'
  end.

(** [parseInt] after the white space and the sign *)
Definition parse_unsigned (sign : Z) (S1 : string) : option Z :=
  let '(R, S2) :=
    match S1 with
    | String "0" (String "x" r) => (16%N, r)
    | String "0" (String "X" r) => (16%N, r)
    | _ => (10%N, S1)
    end in
  match digits_prefix R S2 with
  | [] => None
  | ds => Some (sign * Z.of_N (digits_value R ds))%Z
  end.

(** the settings that a save of [newState] writes *)
Definition key_if {A} (field : option A) (key : string) : list string :=
  match field with
  | Some _ => [key]
  | None => []
  end.

Definition saved_keys (newState : UIState.partial) : list string :=
  key_if (UIState.p_leftPanelCollapsed newState) "ui.leftPanel.collapsed"
  ++ key_if (UIState.p_rightPanelCollapsed newState) "ui.rightPanel.collapsed"
  ++ key_if (UIState.p_leftPanelWidth newState) "ui.leftPanel.width"
  ++ key_if (UIState.p_rightPanelWidth newState) "ui.rightPanel.width"
  ++ key_if (UIState.p_claudeProjectsCollapsed newState)
       "ui.claudeProjects.collapsed".

(** what a save of [newState] stores under [key], if anything *)
Definition saved_value (newState : UIState.partial) (key : string)
    : option string :=
  if bool_decide (key = "ui.claudeProjects.collapsed")
  then bool_toString <$> UIState.p_claudeProjectsCollapsed newState
  else if bool_decide (key = "ui.rightPanel.width")
  then number_toString <$> UIState.p_rightPanelWidth newState
  else if bool_decide (key = "ui.leftPanel.width")
  then number_toString <$> UIState.p_leftPanelWidth newState
  else if bool_decide (key = "ui.rightPanel.collapsed")
  then bool_toString <$> UIState.p_rightPanelCollapsed newState
  else if bool_decide (key = "ui.leftPanel.collapsed")
  then bool_toString <$> UIState.p_leftPanelCollapsed newState
  else None.

(** the three collapse buttons *)
Inductive Toggle : Type := LeftPanel | RightPanel | ClaudeProjects.

Definition press (t : Toggle) (cfg : Layout.State * gmap string string)
    : Layout.State * gmap string string :=
  let res :=
    match t with
    | LeftPanel => Layout.toggleLeftPanel cfg.1
    | RightPanel => Layout.toggleRightPanel cfg.1
    | ClaudeProjects => Layout.toggleClaudeProjects cfg.1
    end in
  (res.1, store_run res.2 cfg.2).

Definition presses (ts : list Toggle)
    (cfg : Layout.State * gmap string string)
    : Layout.State * gmap string string :=
  fold_left (fun cfg t => press t cfg) ts cfg.

(** what the lists and the selection of a reachable state satisfy *)
Definition consistent (st : Layout.State) : Prop :=
  Layout.projects st = Layout.userProjects st ++ Layout.claudeProjects st
  ∧ (is_Some (Layout.currentSession st) → is_Some (Layout.currentProject st))
  ∧ (∀ cs cp,
       Layout.currentSession st = Some cs →
       Layout.currentProject st = Some cp →
       truthy (Session.isTemporary cs) = true →
       Session.project_id cs = Project.id cp
       ∧ Session.project_path cs = Project.path cp).

(** * Properties *)

(** ** Strings *)

Section StringFacts.

Lemma startsWith_spec (s q : string) :
  startsWith s q = true ↔ ∃ post, s = q +:+ post.
Proof.
  revert s. induction q as [|b q IH]; intros s; simpl.
  - split; [intros _; by exists s | done].
  - destruct s as [|a s].
    + split; [done | intros [post H]; discriminate H].
    + rewrite andb_true_iff, bool_decide_eq_true, IH. split.
      * intros [-> [post ->]]. by exists post.
      * intros [post H]. injection H as -> ->. eauto.
Qed.

Lemma includes_spec (s q : string) :
  includes s q = true ↔ ∃ pre post, s = pre +:+ q +:+ post.
Proof.
  induction s as [|a s IH]; simpl.
  - rewrite orb_false_r, startsWith_spec. split.
    + intros [post H]. by exists "", post.
    + intros [pre [post H]]. destruct pre; [by exists post | discriminate H].
  - rewrite orb_true_iff, startsWith_spec, IH. split.
    + intros [[post H] | [pre [post H]]].
      * by exists "", post.
      * exists (String a pre), post. simpl. by rewrite H.
    + intros [pre [post H]]. destruct pre as [|c pre]; simpl in H.
      * left. by exists post.
      * right. injection H as -> ->. by exists pre, post.
Qed.

Lemma toLowerCase_app (a b : string) :
  toLowerCase (a +:+ b) = toLowerCase a +:+ toLowerCase b.
Proof. induction a as [|c a IH]; simpl; [done | by rewrite IH]. Qed.

Lemma toLowerCase_split (s x y : string) :
  toLowerCase s = x +:+ y →
  ∃ a b, s = a +:+ b ∧ toLowerCase a = x ∧ toLowerCase b = y.
Proof.
  revert s. induction x as [|c x IH]; intros s H; simpl in H.
  - by exists "", s.
  - destruct s as [|d s]; simpl in H; [discriminate H|].
    injection H as Hc H. destruct (IH _ H) as (a & b & -> & <- & <-).
    exists (String d a), b. simpl. by rewrite Hc.
Qed.

Lemma lower_char_idemp (c : ascii) :
  lower_char (lower_char c) = lower_char c.
Proof.
  destruct c as [[] [] [] [] [] [] [] []]; vm_compute; reflexivity.
Qed.

(** a property checked on the 256 characters holds of every character *)
Lemma every_char (P : ascii → bool) :
  forallb (fun n => P (ascii_of_nat n)) (seq 0 256) = true → ∀ c, P c = true.
Proof.
  intros H c. rewrite forallb_forall in H.
  rewrite <- (ascii_nat_embedding c). apply H, in_seq.
  pose proof (nat_ascii_bounded c). lia.
Qed.

(** the table pairs a capital with its lower case, which is a small
    letter *)
Lemma letter_cases_lower :
  Forall (fun p => lower_char p.1 = p.2 ∧ lower_char p.2 = p.2) letter_cases.
Proof. apply (bool_decide_unpack _). by vm_compute. Qed.

(** no small letter of the table has two capitals *)
Lemma letter_cases_capital (p q : ascii * ascii) :
  p ∈ letter_cases → q ∈ letter_cases → p.2 = q.2 → p.1 = q.1.
Proof.
  assert (H : Forall (fun p => Forall (fun q => p.2 = q.2 → p.1 = q.1)
                                letter_cases) letter_cases)
    by (apply (bool_decide_unpack _); by vm_compute).
  rewrite Forall_forall in H. intros Hp Hq. specialize (H p Hp).
  rewrite Forall_forall in H. by apply H.
Qed.

(** a character that [lower_char] changes is a capital of the table, and
    its image is the small letter beside it *)
Lemma lower_char_cases (c : ascii) :
  lower_char c = c ∨ (c, lower_char c) ∈ letter_cases.
Proof.
  apply (bool_decide_eq_true_1 _). revert c. apply every_char.
  vm_compute. reflexivity.
Qed.

(** two characters have the same lower case exactly when they are the
    same character or the two cases of one letter of the table *)
Lemma lower_char_same (c d : ascii) :
  lower_char c = lower_char d ↔ same_letter c d.
Proof.
  pose proof letter_cases_lower as Hl. rewrite Forall_forall in Hl.
  split.
  - intros E.
    destruct (lower_char_cases c) as [Hc | Hc],
      (lower_char_cases d) as [Hd | Hd].
    + left. congruence.
    + right. right. by rewrite <- Hc, E.
    + right. left. by rewrite <- Hd, <- E.
    + left. rewrite E in Hc.
      apply (letter_cases_capital _ _ Hc Hd eq_refl).
  - intros [-> | [H | H]]; [done | |];
      destruct (Hl _ H) as [H1 H2]; simpl in H1, H2; congruence.
Qed.

Lemma toLowerCase_equal (a b : string) :
  toLowerCase a = toLowerCase b ↔ equal_ignoring_case a b.
Proof.
  revert b. induction a as [|c a IH]; intros [|d b]; simpl; try done.
  rewrite <- IH, <- lower_char_same. split.
  - intros [= ? ?]. done.
  - intros [-> ->]. done.
Qed.

Lemma toLowerCase_idemp (s : string) :
  toLowerCase (toLowerCase s) = toLowerCase s.
Proof.
  induction s as [|c s IH]; simpl; [done|].
  by rewrite lower_char_idemp, IH.
Qed.

Lemma includes_lower_spec (s q : string) :
  includes (toLowerCase s) (toLowerCase q) = true ↔ occurs_ignoring_case q s.
Proof.
  rewrite includes_spec. split.
  - intros (x & z & H).
    apply toLowerCase_split in H as (pre & rest & -> & _ & H).
    apply toLowerCase_split in H as (mid & post & -> & Hmid & _).
    exists pre, mid, post. by rewrite <- toLowerCase_equal.
  - intros (pre & mid & post & -> & H%toLowerCase_equal).
    exists (toLowerCase pre), (toLowerCase post).
    by rewrite !toLowerCase_app, H.
Qed.

End StringFacts.

(** ** Merge and filter of the project lists *)

Section ProjectLists.
Import Layout.

Lemma matches_spec (q : string) (p : Project.t) :
  matches q p = true ↔
  occurs_ignoring_case q (Project.path p)
  ∨ occurs_ignoring_case q (Project.id p).
Proof.
  unfold matches. by rewrite orb_true_iff, !includes_lower_spec.
Qed.

Lemma filter_twice {A} (f : A → bool) (l : list A) :
  List.filter f (List.filter f l) = List.filter f l.
Proof.
  induction l as [|x l IH]; simpl; [done|].
  destruct (f x) eqn:E; simpl; [by rewrite E, IH | done].
Qed.

Lemma filter_sublist {A} (f : A → bool) (l : list A) :
  List.filter f l `sublist_of` l.
Proof.
  induction l as [|x l IH]; simpl; [constructor|].
  destruct (f x); by constructor.
Qed.

(** C5.  After a successful load with registry list [A] and discovery
    list [B], the merged list is [A ++ B]: it has [length A + length B]
    items, the entries of [A] come first, those of [B] follow, and each
    group is in the order of its source.  (Nothing is required of [A]
    and [B]; in particular they may overlap.) *)
Theorem loadProjects_merge (A B : list Project.t) (st : State) :
  let st' := (loadProjects (Some B) (Some A) st).1 in
  projects st' = A ++ B
  ∧ length (projects st') = length A + length B
  ∧ (∀ i a, A !! i = Some a → projects st' !! i = Some a)
  ∧ (∀ j b, B !! j = Some b → projects st' !! (length A + j) = Some b)
  ∧ userProjects st' = A
  ∧ claudeProjects st' = B.
Proof.
  simpl. repeat split.
  - apply length_app.
  - intros i a H. by apply lookup_app_l_Some.
  - intros j b H. by rewrite lookup_app_r, Nat.add_sub' by lia.
Qed.


End ProjectLists.

(** ** Panel layout persistence *)

Section LayoutPersistence.
Import Layout.

(** C8.  Loading the persisted layout: each panel collapse flag is true
    exactly when the stored string is ["true"] (so anything else, absence
    included, gives the default [false]); the discovered-projects flag is
    expanded exactly when the stored string is ["false"] (so anything
    else, absence included, gives the default "collapsed"); a width whose
    stored value is absent, or for which [parseInt] gives [NaN], is the
    default 300. *)
Theorem loadUIState_resolves (settings : gmap string string) (st : State) :
  let ui := uiState (loadUIState (Some settings) st).1 in
  DEFAULT_UI_STATE = UIState.mk false false 300 300 true
  ∧ (UIState.leftPanelCollapsed ui = true
     ↔ settings !! "ui.leftPanel.collapsed" = Some "true")
  ∧ (UIState.rightPanelCollapsed ui = true
     ↔ settings !! "ui.rightPanel.collapsed" = Some "true")
  ∧ (UIState.claudeProjectsCollapsed ui = false
     ↔ settings !! "ui.claudeProjects.collapsed" = Some "false")
  ∧ (settings !! "ui.leftPanel.collapsed" = None
     → UIState.leftPanelCollapsed ui = false)
  ∧ (settings !! "ui.rightPanel.collapsed" = None
     → UIState.rightPanelCollapsed ui = false)
  ∧ (settings !! "ui.claudeProjects.collapsed" = None
     → UIState.claudeProjectsCollapsed ui = true)
  ∧ (settings !! "ui.leftPanel.width" = None
     ∨ parseInt (settings !! "ui.leftPanel.width") = None
     → UIState.leftPanelWidth ui = 300%Z)
  ∧ (settings !! "ui.rightPanel.width" = None
     ∨ parseInt (settings !! "ui.rightPanel.width") = None
     → UIState.rightPanelWidth ui = 300%Z).
Proof.
  simpl. split; [reflexivity|].
  split; [apply bool_decide_eq_true|].
  split; [apply bool_decide_eq_true|].
  split; [by rewrite negb_false_iff, bool_decide_eq_true|].
  split; [intros ->; reflexivity|].
  split; [intros ->; reflexivity|].
  split; [intros ->; reflexivity|].
  split; (intros [-> | ->]; reflexivity).
Qed.

End LayoutPersistence.

(** ** Session lifecycle *)

Section SessionLifecycle.
Import Layout.

Lemma confirmed_only_placeholders (l : list Session.t) :
  confirmed_only l = true → placeholders l = [].
Proof.
  induction l as [|x l IH]; simpl; [done|].
  rewrite andb_true_iff, negb_true_iff. intros [-> H]. by apply IH.
Qed.

Lemma confirmed_only_filter (f : Session.t → bool) (l : list Session.t) :
  confirmed_only l = true → confirmed_only (List.filter f l) = true.
Proof.
  unfold confirmed_only. rewrite !forallb_forall.
  intros H x Hx. apply H. by apply filter_In in Hx as [? _].
Qed.

Lemma findIndex_head {A} (P : A → bool) (x : A) (l : list A) :
  P x = true → findIndex P (x :: l) = 0%Z.
Proof.
  intros H. unfold findIndex. simpl. by rewrite decide_True.
Qed.

Lemma findIndex_none {A} (P : A → bool) (l : list A) :
  findIndex P l = (-1)%Z ↔ ∀ x, In x l → P x = false.
Proof.
  unfold findIndex.
  destruct (list_find _ l) as [[i x]|] eqn:E.
  - apply list_find_Some in E as (Hi & Hx & _). split; [lia|].
    intros H. apply list_elem_of_lookup_2, list_elem_of_In, H in Hi.
    congruence.
  - apply list_find_None in E. split; [|done]. intros _ x Hx.
    apply list_elem_of_In in Hx.
    rewrite Forall_forall in E. specialize (E x Hx).
    by destruct (P x).
Qed.

(** C3.  A session-created callback made by a render in which the
    selected session did not carry the temporary flag (or in which
    nothing was selected) leaves the state that it finds, whatever that
    state is, as it was: same session list, same selection, nothing
    allocated.  With the render of the state itself this is the callback
    of the view currently shown. *)
Theorem stale_callback_noop (render : State) (newSessionId : string)
    (now : Z) (st : State) :
  (∀ cs, currentSession render = Some cs →
         truthy (Session.isTemporary cs) = false) →
  onSessionCreated_of render newSessionId now st = st
  ∧ sessions (onSessionCreated_of render newSessionId now st) = sessions st
  ∧ currentSession (onSessionCreated_of render newSessionId now st)
    = currentSession st.
Proof.
  intros H.
  assert (E : onSessionCreated_of render newSessionId now st = st).
  { unfold onSessionCreated_of.
    destruct (currentProject render); [|done].
    destruct (currentSession render) as [cs|]; [|done].
    by rewrite (H cs eq_refl). }
  by rewrite E.
Qed.

(** C2.  Reconciling the selected placeholder with the real identifier
    [r]: the session list becomes a new entry with identifier [r] and
    without the placeholder flag, followed by the former entries whose
    identifier is not [r], in their order; the list shown in the history
    panel is that list and holds no placeholder. *)
Theorem reconcile_session_list (r : string) (now : Z) (st : State)
    (cp : Project.t) (cs : Session.t) :
  currentProject st = Some cp →
  currentSession st = Some cs →
  truthy (Session.isTemporary cs) = true →
  confirmed_only (sessions st) = true →
  let st' := onSessionCreated r now st in
  ∃ newSession rest,
    sessions st' = newSession :: rest
    ∧ Session.id newSession = r
    ∧ truthy (Session.isTemporary newSession) = false
    ∧ Session.project_id newSession = Project.id cp
    ∧ Session.project_path newSession = Project.path cp
    ∧ rest = List.filter
               (fun s => negb (bool_decide (Session.id s = r))) (sessions st)
    ∧ (∀ s, In s rest → Session.id s ≠ r)
    ∧ (∀ s, In s (sessions st) → Session.id s ≠ r → In s rest)
    ∧ rest `sublist_of` sessions st
    ∧ allSessions st' = sessions st'
    ∧ placeholders (allSessions st') = [].
Proof.
  intros Hp Hs Ht Hc. simpl. unfold onSessionCreated, onSessionCreated_of.
  rewrite Hp, Hs, Ht. simpl. rewrite Hs.
  eexists _, _. split; [reflexivity|]. simpl.
  split; [done|]. split; [done|]. split; [done|]. split; [done|].
  split; [done|].
  split.
  { intros s H%filter_In. destruct H as [_ H].
    by apply negb_true_iff, bool_decide_eq_false in H. }
  split.
  { intros s H1 H2. apply filter_In. split; [done|].
    by apply negb_true_iff, bool_decide_eq_false. }
  split; [apply filter_sublist|].
  assert (E : ∀ l o c, allSessions
             (allocated 2
                (setCurrentSession
                   (Some (Session.mk o r (Session.project_id cs)
                            (Session.project_path cs) (Session.created_at cs)
                            (Session.first_message cs)
                            (Session.isTemporary cs) (Some true)))
                   (setSessions
                      (Session.mk c r (Project.id cp) (Project.path cp)
                         (now / 1000)%Z None None (Some true) :: l) st)))
           = Session.mk c r (Project.id cp) (Project.path cp)
               (now / 1000)%Z None None (Some true) :: l).
  { intros l o c. unfold allSessions. simpl. rewrite Ht.
    rewrite findIndex_head; [done|]. simpl. by apply bool_decide_eq_true. }
  rewrite E. split; [done|].
  unfold placeholders. simpl.
  apply (confirmed_only_placeholders _ (confirmed_only_filter _ _ Hc)).
Qed.

Lemma is_uuid_new_session (suffix : string) :
  is_uuid ("new-session-" +:+ suffix) = false.
Proof. reflexivity. Qed.

Lemma allSessions_cases (st : State) (s : Session.t) :
  In s (allSessions st) →
  In s (sessions st) ∨ currentSession st = Some s.
Proof.
  unfold allSessions. destruct (currentSession st) as [cs|]; [|by left].
  destruct (truthy _); [|by left].
  destruct (_ =? _)%Z; [|by left].
  intros [<- | H]; [by right | by left].
Qed.

(** C4.  The new-session action on a selected project sends no request;
    it selects a new session whose identifier is ["new-session-"]
    followed by the decimal time in milliseconds, which is not a UUID,
    with the creation time in seconds, no first message and the
    placeholder flag; the session list is as before, and the only
    placeholder the history panel can show is the new one. *)
Theorem create_placeholder (now : Z) (st : State) (cp : Project.t) :
  currentProject st = Some cp →
  confirmed_only (sessions st) = true →
  ∃ tmp st',
    handleCreateNewSession now st = (st', [])
    ∧ currentSession st' = Some tmp
    ∧ currentProject st' = Some cp
    ∧ sessions st' = sessions st
    ∧ Session.id tmp = "new-session-" +:+ pretty now
    ∧ is_uuid (Session.id tmp) = false
    ∧ Session.created_at tmp = (now / 1000)%Z
    ∧ Session.first_message tmp = None
    ∧ Session.isTemporary tmp = Some true
    ∧ Session.project_id tmp = Project.id cp
    ∧ Session.project_path tmp = Project.path cp
    ∧ (∀ s, In s (allSessions st') →
            truthy (Session.isTemporary s) = true → s = tmp)
    ∧ (length (placeholders (allSessions st')) ≤ 1)%nat.
Proof.
  intros Hp Hc. unfold handleCreateNewSession. rewrite Hp.
  eexists _, _. split; [reflexivity|]. simpl.
  do 10 (split; [done|]).
  set (tmp := Session.mk _ _ _ _ _ _ _ _).
  set (st' := allocated 1 _).
  assert (Hin : ∀ s, In s (allSessions st') →
                     truthy (Session.isTemporary s) = true → s = tmp).
  { intros s Hs Ht. apply allSessions_cases in Hs as [Hs | Hs].
    - simpl in Hs. unfold confirmed_only in Hc.
      rewrite forallb_forall in Hc. apply Hc in Hs.
      rewrite Ht in Hs. discriminate Hs.
    - simpl in Hs. congruence. }
  split; [exact Hin|].
  unfold allSessions. simpl.
  destruct (_ =? _)%Z; simpl;
    rewrite (confirmed_only_placeholders _ Hc); simpl; lia.
Qed.

(** C1, as the code has it.  Reconciling the selected placeholder
    replaces the selected session by a new object, a copy of the old one
    with the real identifier and the newly-created mark, the placeholder
    flag included; the project stays selected; the key of the
    conversation view is ["temp-"] followed by the project identifier
    before and after.  For a selection without the placeholder flag the
    key is the session identifier. *)
Theorem reconcile_keeps_key (r : string) (now : Z) (st : State)
    (cp : Project.t) (cs : Session.t) :
  currentProject st = Some cp →
  currentSession st = Some cs →
  truthy (Session.isTemporary cs) = true →
  Session.oid cs < nextOid st →
  let st' := onSessionCreated r now st in
  (∃ cs',
     currentSession st' = Some cs'
     ∧ Session.oid cs' ≠ Session.oid cs
     ∧ cs' = Session.mk (Session.oid cs') r (Session.project_id cs)
               (Session.project_path cs) (Session.created_at cs)
               (Session.first_message cs) (Session.isTemporary cs)
               (Some true))
  ∧ currentProject st' = Some cp
  ∧ ClaudeCodeSession_key st = Some ("temp-" +:+ Project.id cp)
  ∧ ClaudeCodeSession_key st' = ClaudeCodeSession_key st
  ∧ (∀ st2 cp2 cs2,
       currentProject st2 = Some cp2 →
       currentSession st2 = Some cs2 →
       truthy (Session.isTemporary cs2) = false →
       ClaudeCodeSession_key st2 = Some (Session.id cs2)).
Proof.
  intros Hp Hs Ht Ho. simpl.
  unfold onSessionCreated, onSessionCreated_of, ClaudeCodeSession_key.
  rewrite Hp, Hs, Ht. simpl. rewrite Hp, Hs. simpl. rewrite Ht.
  split.
  { eexists. split; [reflexivity|]. simpl. split; [lia | reflexivity]. }
  do 3 (split; [reflexivity|]).
  intros st2 cp2 cs2 -> -> ->. reflexivity.
Qed.

(** C7, as the code has it.  Selecting a project writes its identifier
    under [ui.currentProject.id]; selecting a session from the list,
    placeholder or not, selects it and writes its identifier under
    [ui.currentSession.id] and nothing else; the new-session action
    writes nothing. *)
Theorem selection_persistence :
  (∀ project reply st (σ : gmap string string),
     let res := handleProjectSelect project reply st in
     currentProject res.1 = Some project
     ∧ currentSession res.1 = None
     ∧ store_run res.2 σ = <["ui.currentProject.id" := Project.id project]> σ)
  ∧ (∀ session st (σ : gmap string string),
       let res := handleSessionSelect session st in
       currentSession res.1 = Some session
       ∧ res.2 = [SetSetting "ui.currentSession.id" (Session.id session)]
       ∧ store_run res.2 σ
         = <["ui.currentSession.id" := Session.id session]> σ)
  ∧ (∀ now st (σ : gmap string string),
       let res := handleCreateNewSession now st in
       res.2 = [] ∧ store_run res.2 σ = σ).
Proof.
  split; [|split].
  - intros project reply st σ. unfold handleProjectSelect, loadSessions.
    destruct reply; simpl; done.
  - intros session st σ. simpl. done.
  - intros now st σ. unfold handleCreateNewSession.
    destruct (currentProject st); simpl; done.
Qed.

End SessionLifecycle.

(** ** Every run keeps the invariant *)

Section Runs.
Import Layout Run.

Lemma fresh_objects_In (l : list Session.t) (n : nat) (s : Session.t) :
  In s (fresh_objects n l) → n ≤ Session.oid s < n + length l.
Proof.
  revert n. induction l as [|x l IH]; intros n; simpl; [done|].
  intros [<- | H]; simpl; [lia|]. apply IH in H. lia.
Qed.

Lemma fresh_objects_confirmed (l : list Session.t) (n : nat) :
  confirmed_only (fresh_objects n l) = confirmed_only l.
Proof.
  revert n. induction l as [|x l IH]; intros n; simpl; [done|].
  by rewrite IH.
Qed.

Lemma saveUIState_keeps (newState : UIState.partial)
    (σ : gmap string string) :
  store_run (saveUIState newState) σ !! "ui.currentProject.id"
  = σ !! "ui.currentProject.id".
Proof.
  unfold saveUIState. simpl. apply lookup_union_r.
  destruct newState as [[?|] [?|] [?|] [?|] [?|]]; simpl;
    repeat (rewrite lookup_insert_ne; [|done]); apply lookup_empty.
Qed.

Lemma toggle_invariant (newState : UIState.partial) (st : State)
    (σ : gmap string string) :
  invariant st σ →
  invariant (toggle newState st).1 (store_run (toggle newState st).2 σ).
Proof.
  intros (Hc & Hl & Hs & Hp). unfold toggle. cbn [fst snd].
  unfold invariant. rewrite saveUIState_keeps. simpl. done.
Qed.

Lemma step_invariant (e : Event) (st : State) (σ : gmap string string) :
  invariant st σ → enabled e st →
  invariant (step e st).1 (store_run (step e st).2 σ).
Proof.
  intros Hinv He. pose proof Hinv as (Hc & Hl & Hs & Hp).
  destruct e; simpl in He; cbn [step].
  - destruct reply; simpl; done.
  - destruct claudeReply, userReply; simpl; done.
  - done.
  - by apply toggle_invariant.
  - by apply toggle_invariant.
  - by apply toggle_invariant.
  - destruct He as [_ Hr]. unfold handleProjectSelect, loadSessions.
    destruct reply as [l|]; unfold invariant; simpl in *.
    + rewrite fresh_objects_confirmed. repeat split; try done.
      * intros s H%fresh_objects_In. lia.
      * intros cp [= <-]. by rewrite lookup_insert_eq.
    + repeat split; try done.
      intros cp [= <-]. by rewrite lookup_insert_eq.
  - destruct He as [_ Hin]. unfold invariant. simpl.
    repeat split; try done.
    + intros cs [= <-].
      apply allSessions_cases in Hin as [H | H]; [by apply Hl | by apply Hs].
    + intros cp H. rewrite lookup_insert_ne; [by apply Hp | done].
  - unfold handleCreateNewSession.
    destruct (currentProject st) as [cp|] eqn:E; [|done].
    unfold invariant. simpl. repeat split; try done.
    + intros s H%Hl. lia.
    + intros cs [= <-]. simpl. lia.
    + intros cp' H. apply Hp. congruence.
  - unfold onSessionCreated, onSessionCreated_of.
    destruct (currentProject st) as [cp|] eqn:E; [|done].
    destruct (currentSession st) as [cs|] eqn:E'; [|done].
    destruct (truthy (Session.isTemporary cs)) eqn:Et; [|done].
    unfold invariant. simpl. rewrite E'.
    repeat split.
    + by apply confirmed_only_filter.
    + intros s [<- | H]; simpl; [lia|].
      apply filter_In in H as [H%Hl _]. lia.
    + intros x [= <-]. simpl. lia.
    + intros cp' H. apply Hp. congruence.
  - unfold invariant. simpl. repeat split; done.
Qed.

(** the session list of a reachable state holds no placeholder, the
    session objects in use have been allocated, and the store holds the
    identifier of the selected project *)
Lemma reachable_invariant (st : State) (σ : gmap string string) :
  reachable st σ → invariant st σ.
Proof.
  induction 1 as [σ | st σ e _ IH He].
  - repeat split; simpl; done.
  - by apply step_invariant.
Qed.

End Runs.

(** ** The registry *)

Section RegistryFacts.
Import UserProjectService UserProjectsApi.

Variable encodeProjectPath : string → string.
Variable fs : string → FsEntry.

Lemma find_finds {A} (f : A → bool) (l : list A) (x : A) :
  In x l → f x = true → ∃ y, List.find f l = Some y.
Proof.
  intros Hin Hf. destruct (List.find f l) as [y|] eqn:E; [by exists y|].
  rewrite (find_none _ _ E x Hin) in Hf. discriminate Hf.
Qed.

Lemma getUserProjectByPath_Some (p : string) (db : Repository) :
  (∃ r, In r (rows db) ∧ UserProject.path r = p)
  ↔ ∃ r, getUserProjectByPath p db = Some r.
Proof.
  unfold getUserProjectByPath, findOne. split.
  - intros (r & Hin & Hp). apply (find_finds _ _ r Hin).
    by apply bool_decide_eq_true.
  - intros (r & H). apply find_some in H as [Hin Hp].
    apply bool_decide_eq_true in Hp. by exists r.
Qed.

Lemma insert_desc_In (r x : UserProject.t) (l : list UserProject.t) :
  In x (insert_desc r l) ↔ x = r ∨ In x l.
Proof.
  induction l as [|y l IH]; simpl; [intuition|].
  destruct (_ <? _)%Z; simpl; [intuition|]. rewrite IH. intuition.
Qed.

Lemma order_created_at_desc_In (x : UserProject.t)
    (l : list UserProject.t) :
  In x (order_created_at_desc l) ↔ In x l.
Proof.
  induction l as [|y l IH]; simpl; [done|].
  rewrite insert_desc_In, IH. intuition.
Qed.

Lemma getAllUserProjects_In (x : UserProject.t) (db : Repository) :
  In x (getAllUserProjects db)
  ↔ In x (rows db) ∧ UserProject.is_active x = true.
Proof.
  unfold getAllUserProjects.
  by rewrite order_created_at_desc_In, filter_In.
Qed.

Lemma getUserProjectByPath_None (p : string) (db : Repository) :
  ¬ (∃ r, In r (rows db) ∧ UserProject.path r = p) →
  getUserProjectByPath p db = None.
Proof.
  intros H. destruct (getUserProjectByPath p db) eqn:E; [|done].
  exfalso. apply H. apply getUserProjectByPath_Some. eauto.
Qed.

Lemma add_duplicate (projectPath : string) (projectName : option string)
    (now : Z) (db : Repository) :
  (∃ r, In r (rows db) ∧ UserProject.path r = projectPath) →
  add_user_project encodeProjectPath fs projectPath projectName now db
  = (db, Err "Project already exists in the list").
Proof.
  intros H. apply getUserProjectByPath_Some in H as [r H].
  unfold add_user_project. by rewrite H.
Qed.

Lemma add_not_directory (projectPath : string) (projectName : option string)
    (now : Z) (db : Repository) :
  ¬ (∃ r, In r (rows db) ∧ UserProject.path r = projectPath) →
  fs projectPath ≠ Accessible true →
  add_user_project encodeProjectPath fs projectPath projectName now db
  = (db, Err "Cannot access the directory").
Proof.
  intros H Hfs. unfold add_user_project, check_directory.
  rewrite (getUserProjectByPath_None _ _ H).
  destruct (fs projectPath) as [|[]]; simpl; done.
Qed.

Lemma add_creates (projectPath : string) (projectName : option string)
    (now : Z) (db : Repository) :
  ¬ (∃ r, In r (rows db) ∧ UserProject.path r = projectPath) →
  fs projectPath = Accessible true →
  ∃ row,
    add_user_project encodeProjectPath fs projectPath projectName now db
    = (mkRepository (rows db ++ [row]) (next_id db + 1),
       Ok (to_project encodeProjectPath row))
    ∧ UserProject.id row = next_id db
    ∧ UserProject.path row = projectPath
    ∧ UserProject.is_active row = true.
Proof.
  intros H Hfs. unfold add_user_project, check_directory.
  rewrite (getUserProjectByPath_None _ _ H), Hfs. simpl.
  eexists. split; [reflexivity|]. done.
Qed.

(** C9.  Adding a project by path: when a record with that exact path
    exists the call fails with "Project already exists in the list";
    otherwise, when the path cannot be accessed or is not a directory, it
    fails with "Cannot access the directory"; a failed call returns the
    registry it was given.  The registry changes only when no record has
    the path and the path is a directory, and then by one appended, active
    record for that path. *)
Theorem add_user_project_checks (projectPath : string)
    (projectName : option string) (now : Z) (db : Repository) :
  let res := add_user_project encodeProjectPath fs projectPath projectName
               now db in
  let duplicate := ∃ r, In r (rows db) ∧ UserProject.path r = projectPath in
  (duplicate → res = (db, Err "Project already exists in the list"))
  ∧ (¬ duplicate → fs projectPath ≠ Accessible true →
     res = (db, Err "Cannot access the directory"))
  ∧ (duplicate ∨ fs projectPath ≠ Accessible true →
     ∃ message, res = (db, Err message))
  ∧ (res.1 ≠ db → ¬ duplicate ∧ fs projectPath = Accessible true)
  ∧ (¬ duplicate → fs projectPath = Accessible true →
     ∃ row,
       res = (mkRepository (rows db ++ [row]) (next_id db + 1),
              Ok (to_project encodeProjectPath row))
       ∧ UserProject.id row = next_id db
       ∧ UserProject.path row = projectPath
       ∧ UserProject.is_active row = true).
Proof.
  simpl.
  split; [apply add_duplicate|]. split; [apply add_not_directory|].
  assert (Hcases : (∃ r, In r (rows db) ∧ UserProject.path r = projectPath)
                   ∨ ¬ (∃ r, In r (rows db)
                             ∧ UserProject.path r = projectPath)).
  { destruct (getUserProjectByPath projectPath db) eqn:E.
    - left. apply getUserProjectByPath_Some. eauto.
    - right. intros [r Hr]%getUserProjectByPath_Some. congruence. }
  split.
  { intros [H | H]; [eexists; by apply add_duplicate|].
    destruct Hcases as [Hd | Hd]; eexists.
    - by apply add_duplicate.
    - by apply add_not_directory. }
  split; [|apply add_creates].
  intros Hne. destruct Hcases as [Hd | Hd].
  { exfalso. apply Hne. by rewrite add_duplicate. }
  split; [exact Hd|].
  destruct (decide (fs projectPath = Accessible true)) as [|Hfs]; [done|].
  exfalso. apply Hne. by rewrite add_not_directory.
Qed.

Lemma save_existing_rows (e : UserProject.t) (now : Z) (db : Repository)
    (x : UserProject.t) :
  In x (rows (save_existing e now db)) →
  UserProject.id x = UserProject.id e →
  UserProject.is_active e = false →
  UserProject.is_active x = false.
Proof.
  unfold save_existing. simpl. rewrite in_map_iff.
  intros (y & <- & Hy) Hid Hact. revert Hid.
  case_bool_decide as E1; [|done].
  case_bool_decide as E2; simpl; [by subst | done].
Qed.

Lemma save_existing_keeps_path (e : UserProject.t) (now : Z)
    (db : Repository) (r : UserProject.t) :
  In r (rows db) → UserProject.id r = UserProject.id e →
  UserProject.path r = UserProject.path e →
  ∃ x, In x (rows (save_existing e now db))
       ∧ UserProject.id x = UserProject.id e
       ∧ UserProject.path x = UserProject.path e.
Proof.
  intros Hin Hid Hpath. unfold save_existing. simpl.
  eexists. split; [apply in_map, Hin|].
  rewrite bool_decide_eq_true_2 by done.
  case_bool_decide; simpl; done.
Qed.

(** C10.  After the soft removal of the record with key [id] (found with
    path [p]), the record is no longer among the listed user projects,
    yet it is still in the table with its path, and adding a project with
    path [p] is rejected as a duplicate. *)
Theorem soft_removed_path_still_taken (id : N) (now : Z) (db : Repository)
    (r : UserProject.t) :
  getUserProjectById id db = Some r →
  let res := remove_user_project id now db in
  let db' := res.1 in
  res.2 = Ok true
  ∧ (∀ x, In x (getAllUserProjects db') → UserProject.id x ≠ id)
  ∧ (∀ p, In p (get_user_projects encodeProjectPath db') →
          Project.databaseId p ≠ Some id)
  ∧ (∃ x, In x (rows db')
          ∧ UserProject.id x = id
          ∧ UserProject.path x = UserProject.path r
          ∧ UserProject.is_active x = false)
  ∧ (∀ projectName now',
       add_user_project encodeProjectPath fs (UserProject.path r)
         projectName now' db'
       = (db', Err "Project already exists in the list")).
Proof.
  intros Hfind. unfold remove_user_project, deleteUserProject.
  unfold getUserProjectById in Hfind. rewrite Hfind. simpl.
  pose proof Hfind as Hr. unfold findOne in Hr.
  apply find_some in Hr as [Hin Hid]. apply bool_decide_eq_true in Hid.
  set (e := UserProject.mk _ _ _ _ false _ _).
  assert (Hlisted : ∀ x, In x (getAllUserProjects (save_existing e now db))
                         → UserProject.id x ≠ id).
  { intros x [Hx Hact]%getAllUserProjects_In Hxid.
    rewrite (save_existing_rows e now db x Hx) in Hact; [done | | done].
    by rewrite Hxid. }
  destruct (save_existing_keeps_path e now db r Hin eq_refl eq_refl)
    as (x & Hx & Hxid & Hxp).
  simpl in Hxid, Hxp.
  split; [done|]. split; [exact Hlisted|].
  split.
  { intros p (x' & <- & Hx')%in_map_iff. simpl.
    intros [= E]. by apply (Hlisted x'). }
  split.
  { exists x. repeat split; try done; [congruence|].
    apply (save_existing_rows e now db x Hx); [done | done]. }
  intros projectName now'.
  apply add_duplicate. exists x. by split.
Qed.

End RegistryFacts.

(** ** The small workspace, step by step *)

Section WorkedScenario.
Import Layout Run UserProjectService UserProjectsApi Scenario.

(** the query ["a-other"] leaves [P2] only *)
Example search_a_other :
  let st := setSearchQuery "a-other" loaded in
  filteredUserProjects st = [] ∧ filteredClaudeProjects st = [P2].
Proof. split; reflexivity. Qed.

Example search_ignores_case :
  filteredClaudeProjects (setSearchQuery "A-Oth" loaded) = [P2].
Proof. reflexivity. Qed.

(** letters with an accent: the capital E with acute (201) and the small
    one (233) are the two cases of one letter, so a path with one is
    found with the other; the multiplication sign (215) and the division
    sign (247), 32 places apart as well, are two characters *)
Example search_accented_letters :
  same_letter "A" "a"
  ∧ same_letter (ascii_of_nat 233) (ascii_of_nat 201)
  ∧ ¬ same_letter (ascii_of_nat 215) (ascii_of_nat 247)
  ∧ ¬ same_letter "A" "b"
  ∧ matches (String (ascii_of_nat 233) "")
      (Project.mk "P3" None (String "/" (String (ascii_of_nat 201) ""))
         [] 0 None None) = true
  ∧ matches (String (ascii_of_nat 247) "")
      (Project.mk "P3" None (String "/" (String (ascii_of_nat 215) ""))
         [] 0 None None) = false.
Proof.
  repeat split; try reflexivity;
    first [ by apply (bool_decide_unpack _)
          | apply bool_decide_eq_false; reflexivity ].
Qed.

(** the new-session button on [P1] shows one placeholder *)
Example placeholder_shown :
  sessions project_selected = [S1; S2]
  ∧ currentSession placeholder_selected = Some placeholder
  ∧ allSessions placeholder_selected
    = placeholder :: sessions project_selected
  ∧ placeholders (allSessions placeholder_selected) = [placeholder].
Proof. repeat split; reflexivity. Qed.

(** reconciling with ["R1"] leaves one entry ["R1"] and no placeholder *)
Example reconciled_shown :
  map Session.id (allSessions reconciled) = ["R1"; "S1"; "S2"]
  ∧ placeholders (allSessions reconciled) = [].
Proof. split; reflexivity. Qed.

Example width_round_trip :
  let σ := store_run
             (saveUIState (UIState.mkPartial None None (Some 340%Z) None None))
             ∅ in
  UIState.leftPanelWidth (uiState (loadUIState (Some σ) initial).1) = 340%Z
  ∧ UIState.rightPanelWidth (uiState (loadUIState (Some σ) initial).1)
    = 300%Z.
Proof. split; vm_compute; reflexivity. Qed.

(** the states of the small workspace are states of a run *)
Lemma placeholder_selected_reachable (σ : gmap string string) :
  reachable placeholder_selected
    (<["ui.currentProject.id" := "P1"]> σ)
  ∧ invariant placeholder_selected (<["ui.currentProject.id" := "P1"]> σ).
Proof.
  assert (H0 : reachable loaded σ).
  { apply (reachable_step initial σ (LoadProjects (Some [P2]) (Some [P1])));
      [apply reachable_initial | exact I]. }
  assert (H1 : reachable project_selected
                 (<["ui.currentProject.id" := "P1"]> σ)).
  { apply (reachable_step loaded σ (ProjectSelect P1 (Some [S1; S2])) H0).
    split; [left; left; reflexivity | reflexivity]. }
  assert (H2 : reachable placeholder_selected
                 (<["ui.currentProject.id" := "P1"]> σ)).
  { apply (reachable_step project_selected _ (CreateNewSession now) H1).
    by eexists. }
  split; [exact H2 | by apply reachable_invariant].
Qed.

(** C1, the claim as stated fails: reconciling puts another object in the
    selection (the allocation number changes from 2 to 4), and the key of
    a selection without the temporary flag is the session identifier, so
    two sessions of one project get two keys. *)
Lemma reconcile_replaces_selection :
  (Session.oid <$> currentSession placeholder_selected) = Some 2
  ∧ (Session.oid <$> currentSession reconciled) = Some 4
  ∧ (Session.oid <$> currentSession reconciled)
    ≠ (Session.oid <$> currentSession placeholder_selected)
  ∧ currentProject (confirmed_selected S1)
    = currentProject (confirmed_selected S2)
  ∧ ClaudeCodeSession_key (confirmed_selected S1) = Some "S1"
  ∧ ClaudeCodeSession_key (confirmed_selected S2) = Some "S2"
  ∧ ClaudeCodeSession_key (confirmed_selected S1)
    ≠ ClaudeCodeSession_key (confirmed_selected S2).
Proof. repeat split; try reflexivity; vm_compute; discriminate. Qed.

(** the hypotheses of [reconcile_keeps_key] hold after the new-session
    button of the small workspace *)
Lemma reconcile_keeps_key_witness :
  (currentProject placeholder_selected = Some P1
   ∧ currentSession placeholder_selected = Some placeholder
   ∧ truthy (Session.isTemporary placeholder) = true
   ∧ Session.oid placeholder < nextOid placeholder_selected)
  ∧ ClaudeCodeSession_key reconciled = Some "temp-P1"
  ∧ ClaudeCodeSession_key placeholder_selected = Some "temp-P1".
Proof.
  assert (H : Session.oid placeholder < nextOid placeholder_selected)
    by (vm_compute; lia).
  split; [split; [|split; [|split]]; [reflexivity.. | exact H]|].
  destruct (reconcile_keeps_key "R1" (now + 4000) placeholder_selected
              P1 placeholder eq_refl eq_refl eq_refl H)
    as (_ & _ & H1 & H2 & _).
  split; [exact (eq_trans H2 H1) | exact H1].
Defined.

(** the reconciliation of the small workspace *)
Lemma reconcile_session_list_witness :
  (currentProject placeholder_selected = Some P1
   ∧ currentSession placeholder_selected = Some placeholder
   ∧ truthy (Session.isTemporary placeholder) = true
   ∧ confirmed_only (sessions placeholder_selected) = true)
  ∧ placeholders (allSessions reconciled) = [].
Proof.
  split; [repeat split; reflexivity|].
  destruct (reconcile_session_list "R1" (now + 4000) placeholder_selected
              P1 placeholder eq_refl eq_refl eq_refl eq_refl)
    as (newSession & rest & H).
  apply H.
Defined.

(** C3, the claim as stated fails, in two ways.

    A repeated callback: the selection made by a reconciliation has the
    real identifier and no placeholder is shown any more, but it keeps
    the temporary flag (this is what keeps the key), so the callback of
    the next render passes the guard again.  With ["R1"] again it
    rebuilds the head of the list, with ["R2"] it adds an entry and
    changes the identifier of the selection.

    A late callback: the placeholder is left for [S1] of the history,
    which carries no flag, and the callback made while the placeholder
    was selected arrives.  Its guard reads the selection of its own
    render, so it adds ["R1"] to the list and gives the identifier
    ["R1"] to the selected [S1]. *)
Lemma stale_callback_processed :
  ((Session.id <$> currentSession reconciled) = Some "R1"
   ∧ (Session.isTemporary <$> currentSession reconciled) = Some (Some true)
   ∧ placeholders (allSessions reconciled) = []
   ∧ (Session.created_at <$> head (sessions reconciled))
     = Some 1730000004%Z
   ∧ (Session.created_at <$>
        head (sessions (onSessionCreated "R1" (now + 9000) reconciled)))
     = Some 1730000009%Z
   ∧ sessions (onSessionCreated "R1" (now + 9000) reconciled)
     ≠ sessions reconciled
   ∧ map Session.id (sessions reconciled) = ["R1"; "S1"; "S2"]
   ∧ map Session.id
       (sessions (onSessionCreated "R2" (now + 9000) reconciled))
     = ["R2"; "R1"; "S1"; "S2"]
   ∧ (Session.id <$>
        currentSession (onSessionCreated "R2" (now + 9000) reconciled))
     = Some "R2")
  ∧ (currentSession placeholder_left = Some S1
     ∧ truthy (Session.isTemporary S1) = false
     ∧ placeholders (allSessions placeholder_left) = []
     ∧ sessions placeholder_left = [S1; S2]
     ∧ map Session.id
         (sessions (onSessionCreated_of placeholder_selected "R1"
                      (now + 4000) placeholder_left))
       = ["R1"; "S1"; "S2"]
     ∧ currentSession (onSessionCreated_of placeholder_selected "R1"
                         (now + 4000) placeholder_left)
       = Some (Session.mk 4 "R1" "P1" "/a" 1729000000 (Some "hello") None
                 (Some true))
     ∧ onSessionCreated_of placeholder_selected "R1" (now + 4000)
         placeholder_left
       ≠ placeholder_left).
Proof. repeat split; try reflexivity; vm_compute; discriminate. Qed.

(** a callback while [S1] of the history is selected: the one of the
    view shown, and one made by that render that arrives after the
    new-session button was pressed *)
Lemma stale_callback_noop_witness :
  (∀ cs, currentSession (confirmed_selected S1) = Some cs →
         truthy (Session.isTemporary cs) = false)
  ∧ onSessionCreated "R1" (now + 4000) (confirmed_selected S1)
    = confirmed_selected S1
  ∧ onSessionCreated_of (confirmed_selected S1) "R1" (now + 4000)
      placeholder_selected
    = placeholder_selected.
Proof.
  assert (H : ∀ cs, currentSession (confirmed_selected S1) = Some cs →
                    truthy (Session.isTemporary cs) = false)
    by (intros cs [= <-]; reflexivity).
  split; [exact H|]. split.
  - apply (stale_callback_noop (confirmed_selected S1) "R1" (now + 4000)
             (confirmed_selected S1) H).
  - apply (stale_callback_noop (confirmed_selected S1) "R1" (now + 4000)
             placeholder_selected H).
Defined.

(** the new-session button of the small workspace *)
Lemma create_placeholder_witness :
  (currentProject project_selected = Some P1
   ∧ confirmed_only (sessions project_selected) = true)
  ∧ ∃ tmp, currentSession placeholder_selected = Some tmp
           ∧ is_uuid (Session.id tmp) = false.
Proof.
  split; [split; reflexivity|].
  destruct (create_placeholder now project_selected P1 eq_refl eq_refl)
    as (tmp & st' & H0 & H1 & _ & _ & _ & H5 & _).
  exists tmp. unfold placeholder_selected. rewrite H0. by split.
Defined.

(** C7, the claim as stated fails: the placeholder is an entry of the
    history panel, and picking it there writes its identifier to the
    store. *)
Lemma placeholder_selection_persisted :
  In placeholder (allSessions placeholder_selected)
  ∧ truthy (Session.isTemporary placeholder) = true
  ∧ (handleSessionSelect placeholder placeholder_selected).2
    = [SetSetting "ui.currentSession.id" "new-session-1730000000000"]
  ∧ store_run (handleSessionSelect placeholder placeholder_selected).2 ∅
      !! "ui.currentSession.id"
    = Some "new-session-1730000000000".
Proof. repeat split; try reflexivity. left. reflexivity. Qed.

(** the registry: a second add of [/a], a file, a missing path *)
Example add_twice :
  add_user_project encodeProjectPath fs "/a" None (now + 1) registered
  = (registered, Err "Project already exists in the list")
  ∧ add_user_project encodeProjectPath fs "/a/notes.txt" None now empty
    = (empty, Err "Cannot access the directory")
  ∧ add_user_project encodeProjectPath fs "/missing" (Some "m") now empty
    = (empty, Err "Cannot access the directory").
Proof. repeat split; reflexivity. Qed.

(** [/a] is added, removed, and added again *)
Lemma soft_removed_path_still_taken_witness :
  getUserProjectById 1 registered
  = Some (UserProject.mk 1 "a" "/a" (Some "User project: a") true now now)
  ∧ get_user_projects encodeProjectPath
      (remove_user_project 1 (now + 1) registered).1 = []
  ∧ add_user_project encodeProjectPath fs "/a" None (now + 2)
      (remove_user_project 1 (now + 1) registered).1
    = ((remove_user_project 1 (now + 1) registered).1,
       Err "Project already exists in the list").
Proof.
  split; [reflexivity|]. split; [reflexivity|].
  destruct (soft_removed_path_still_taken encodeProjectPath fs 1 (now + 1)
              registered _ eq_refl) as (_ & _ & _ & _ & H).
  apply (H None (now + 2)%Z).
Defined.

End WorkedScenario.


(** * Further properties of the code *)

(** ** Decimal strings and [parseInt] *)

Section DecimalRoundTrip.

Ltac digit_cases c H :=
  destruct c as [[] [] [] [] [] [] [] []];
  try (vm_compute in H; discriminate H).

Lemma digit_value_pretty_char (d : N) :
  (d < 10)%N →
  digit_value (pretty_N_char d) = Some d
  ∧ ((48 <=? N_of_ascii (pretty_N_char d))
     && (N_of_ascii (pretty_N_char d) <=? 57))%N = true.
Proof.
  intros H.
  assert (d = 0 ∨ d = 1 ∨ d = 2 ∨ d = 3 ∨ d = 4 ∨ d = 5 ∨ d = 6 ∨ d = 7
          ∨ d = 8 ∨ d = 9)%N as Hd by lia.
  repeat (destruct Hd as [-> | Hd]; [by vm_compute|]). subst. by vm_compute.
Qed.

Lemma all_digits_pretty_go (x : N) (s : string) :
  all_digits s = true → all_digits (pretty_N_go x s) = true.
Proof.
  revert s. induction (N.lt_wf_0 x) as [x _ IH]; intros s Hs.
  destruct (decide (x = 0%N)) as [-> | Hx]; [by rewrite pretty_N_go_0|].
  rewrite pretty_N_go_step by lia.
  apply IH; [apply N.div_lt; lia|]. simpl.
  destruct (digit_value_pretty_char (x `mod` 10)%N) as [_ ->];
    [apply N.mod_lt; lia | done].
Qed.

Lemma pretty_go_nonempty (x : N) (s : string) :
  (0 < x)%N ∨ s ≠ "" → pretty_N_go x s ≠ "".
Proof.
  revert s. induction (N.lt_wf_0 x) as [x _ IH]; intros s H.
  destruct (decide (x = 0%N)) as [-> | Hx].
  - rewrite pretty_N_go_0. destruct H as [H | H]; [lia | done].
  - rewrite pretty_N_go_step by lia.
    apply IH; [apply N.div_lt; lia | by right].
Qed.

Lemma digits_pretty_go (x : N) (s : string) :
  ∃ ds,
    digits_prefix 10 (pretty_N_go x s) = ds ++ digits_prefix 10 s
    ∧ ∀ acc, fold_left (fun a d => (a * 10 + d)%N) ds acc
             = (acc * 10 ^ N.of_nat (length ds) + x)%N.
Proof.
  revert s. induction (N.lt_wf_0 x) as [x _ IH]; intros s.
  destruct (decide (x = 0%N)) as [-> | Hx].
  { exists []. rewrite pretty_N_go_0. split; [done|]. intros acc. simpl. lia. }
  rewrite pretty_N_go_step by lia.
  destruct (IH (x `div` 10)%N (N.div_lt x 10 ltac:(lia) eq_refl)
              (String (pretty_N_char (x `mod` 10)) s)) as (ds & Hds & Hval).
  exists (ds ++ [(x `mod` 10)%N]). split.
  - rewrite Hds. simpl.
    destruct (digit_value_pretty_char (x `mod` 10)%N) as [-> _];
      [apply N.mod_lt; lia|].
    assert ((x `mod` 10 <? 10)%N = true) as ->
      by (apply N.ltb_lt, N.mod_lt; lia).
    by rewrite <- app_assoc.
  - intros acc. rewrite fold_left_app, Hval. simpl.
    rewrite length_app. simpl.
    replace (N.of_nat (length ds + 1)) with (N.succ (N.of_nat (length ds)))
      by lia.
    rewrite N.pow_succ_r'. pose proof (N.div_mod x 10 ltac:(lia)). lia.
Qed.

Lemma digits_prefix_all_digits (s : string) :
  all_digits s = true → s ≠ "" → digits_prefix 10 s ≠ [].
Proof.
  destruct s as [|c s]; [done|].
  cbn [all_digits digits_prefix].
  intros [Hc _]%andb_true_iff _. unfold digit_value. rewrite Hc.
  assert ((N_of_ascii c - 48 <? 10)%N = true) as ->; [|done].
  apply N.ltb_lt. apply andb_true_iff in Hc as [_ H%N.leb_le]. lia.
Qed.

Lemma parse_unsigned_digits (sign : Z) (s : string) :
  all_digits s = true → s ≠ "" →
  parse_unsigned sign s
  = Some (sign * Z.of_N (digits_value 10 (digits_prefix 10 s)))%Z.
Proof.
  intros Hs Hne.
  assert (E : parse_unsigned sign s
              = match digits_prefix 10 s with
                | [] => None
                | ds => Some (sign * Z.of_N (digits_value 10 ds))%Z
                end).
  { destruct s as [|c s]; [done|].
    simpl in Hs. apply andb_true_iff in Hs as [Hc Hs].
    digit_cases c Hc; try reflexivity.
    destruct s as [|c2 s]; [reflexivity|].
    simpl in Hs. apply andb_true_iff in Hs as [Hc2 _].
    digit_cases c2 Hc2; reflexivity. }
  rewrite E. pose proof (digits_prefix_all_digits s Hs Hne).
  by destruct (digits_prefix 10 s).
Qed.

Lemma parseInt_string_digits (s : string) :
  all_digits s = true → s ≠ "" →
  parseInt_string s = parse_unsigned 1 s.
Proof.
  destruct s as [|c s]; [done|]. simpl.
  intros [Hc _]%andb_true_iff _. digit_cases c Hc; reflexivity.
Qed.

Lemma parseInt_pretty_N (x : N) :
  all_digits (pretty x) = true ∧ pretty x ≠ ""
  ∧ digits_value 10 (digits_prefix 10 (pretty x)) = x.
Proof.
  unfold pretty, pretty_N. case_decide as Hx; [by subst|].
  split; [by apply all_digits_pretty_go|].
  split; [apply pretty_go_nonempty; left; lia|].
  destruct (digits_pretty_go x "") as (ds & -> & Hval).
  simpl. rewrite app_nil_r. unfold digits_value. rewrite Hval. lia.
Qed.

(** [parseInt] reads back the decimal form of every integer *)
Lemma parseInt_pretty (z : Z) : parseInt (Some (pretty z)) = Some z.
Proof.
  unfold parseInt. simpl. destruct z as [|p|p].
  - reflexivity.
  - change (pretty (Z.pos p)) with (pretty (N.pos p)).
    destruct (parseInt_pretty_N (N.pos p)) as (Hd & Hne & Hv).
    rewrite parseInt_string_digits, parse_unsigned_digits, Hv by done.
    reflexivity.
  - change (pretty (Z.neg p)) with ("-" +:+ pretty (N.pos p)).
    destruct (parseInt_pretty_N (N.pos p)) as (Hd & Hne & Hv).
    change (parseInt_string ("-" +:+ pretty (N.pos p)))
      with (parse_unsigned (-1) (pretty (N.pos p))).
    rewrite parse_unsigned_digits, Hv by done. reflexivity.
Qed.

End DecimalRoundTrip.

(** ** Saving and reloading the panel layout *)

Section LayoutRoundTrip.
Import Layout.

Lemma saveUIState_lookup (newState : UIState.partial)
    (σ : gmap string string) (k : string) :
  store_run (saveUIState newState) σ !! k
  = match saved_value newState k with
    | Some v => Some v
    | None => σ !! k
    end.
Proof.
  unfold saveUIState, saved_value. simpl. rewrite lookup_union.
  destruct newState as [[a|] [b|] [c|] [d|] [e|]]; simpl;
    repeat (rewrite lookup_insert; case_decide; subst; simpl;
            [try done; by rewrite union_Some_l|]);
    rewrite ?lookup_empty; simpl.
  all: try (repeat case_bool_decide; try done; by destruct (σ !! k)).
Qed.

Lemma saved_value_absent (newState : UIState.partial) (k : string) :
  k ∉ saved_keys newState → saved_value newState k = None.
Proof.
  unfold saved_keys, saved_value. intros Hk.
  destruct newState as [[a|] [b|] [c|] [d|] [e|]]; simpl in *;
    repeat case_bool_decide; try done; subst k; exfalso; apply Hk;
    repeat first [apply list_elem_of_here | apply list_elem_of_further].
Qed.

Lemma flag_round_trip (b : bool) :
  bool_decide (Some (bool_toString b) = Some "true") = b
  ∧ negb (bool_decide (Some (bool_toString b) = Some "false")) = b.
Proof. by destruct b. Qed.

Lemma width_reload (w : Z) :
  number_or (parseInt (Some (number_toString w))) 300
  = (if (w =? 0)%Z then 300 else w)%Z.
Proof. unfold number_toString. by rewrite parseInt_pretty. Qed.

(** X1.  What [saveUIState] writes, [loadUIState] reads back: a saved
    collapse flag is reloaded as it was; a saved width that is a safe
    integer is reloaded as it was unless it is zero, which reloads as the
    default 300.  (Of a width that is not a safe integer nothing is
    said: its [toString] need not be a string of digits.) *)
Theorem save_then_load (newState : UIState.partial)
    (σ : gmap string string) (st : State) :
  let σ' := store_run (saveUIState newState) σ in
  let ui := uiState (loadUIState (Some σ') st).1 in
  (∀ b, UIState.p_leftPanelCollapsed newState = Some b →
        UIState.leftPanelCollapsed ui = b)
  ∧ (∀ b, UIState.p_rightPanelCollapsed newState = Some b →
          UIState.rightPanelCollapsed ui = b)
  ∧ (∀ b, UIState.p_claudeProjectsCollapsed newState = Some b →
          UIState.claudeProjectsCollapsed ui = b)
  ∧ (∀ w, UIState.p_leftPanelWidth newState = Some w →
          isSafeInteger w = true →
          UIState.leftPanelWidth ui = if (w =? 0)%Z then 300%Z else w)
  ∧ (∀ w, UIState.p_rightPanelWidth newState = Some w →
          isSafeInteger w = true →
          UIState.rightPanelWidth ui = if (w =? 0)%Z then 300%Z else w).
Proof.
  intros σ' ui. subst ui. simpl. unfold σ'. rewrite !saveUIState_lookup.
  repeat split; intros x Hx; try intros _.
  - change (saved_value newState "ui.leftPanel.collapsed")
      with (bool_toString <$> UIState.p_leftPanelCollapsed newState).
    rewrite Hx. apply flag_round_trip.
  - change (saved_value newState "ui.rightPanel.collapsed")
      with (bool_toString <$> UIState.p_rightPanelCollapsed newState).
    rewrite Hx. apply flag_round_trip.
  - change (saved_value newState "ui.claudeProjects.collapsed")
      with (bool_toString <$> UIState.p_claudeProjectsCollapsed newState).
    rewrite Hx. apply flag_round_trip.
  - change (saved_value newState "ui.leftPanel.width")
      with (number_toString <$> UIState.p_leftPanelWidth newState).
    rewrite Hx. apply width_reload.
  - change (saved_value newState "ui.rightPanel.width")
      with (number_toString <$> UIState.p_rightPanelWidth newState).
    rewrite Hx. apply width_reload.
Qed.

(** X2.  [saveUIState] sends one request, and the store changes only under
    the keys of the fields that are present: every other key, the two
    selection keys among them, keeps its value, and a save of no field
    leaves the store as it was. *)
Theorem save_writes_changed_keys (newState : UIState.partial)
    (σ : gmap string string) :
  let σ' := store_run (saveUIState newState) σ in
  length (saveUIState newState) = 1
  ∧ (∀ k, k ∉ saved_keys newState → σ' !! k = σ !! k)
  ∧ (∀ k, k ∈ saved_keys newState → is_Some (σ' !! k))
  ∧ σ' !! "ui.currentProject.id" = σ !! "ui.currentProject.id"
  ∧ σ' !! "ui.currentSession.id" = σ !! "ui.currentSession.id"
  ∧ store_run (saveUIState UIState.nothing) σ = σ.
Proof.
  intros σ'. unfold σ'. split; [done|].
  split.
  { intros k Hk. by rewrite saveUIState_lookup, saved_value_absent. }
  split.
  { intros k Hk. rewrite saveUIState_lookup.
    unfold saved_keys in Hk. rewrite !elem_of_app in Hk.
    unfold key_if in Hk.
    destruct newState as [[a|] [b|] [c|] [d|] [e|]]; simpl in Hk;
      rewrite ?list_elem_of_singleton, ?elem_of_nil in Hk;
      repeat (destruct Hk as [Hk | Hk]); try done; subst k;
      unfold saved_value; simpl; eauto. }
  split; [by rewrite saveUIState_lookup|].
  split; [by rewrite saveUIState_lookup|].
  apply map_eq. intros k.
  rewrite saveUIState_lookup, saved_value_absent; [done|].
  apply not_elem_of_nil.
Qed.

Lemma saved_value_keys (newState : UIState.partial) :
  saved_value newState "ui.leftPanel.collapsed"
  = bool_toString <$> UIState.p_leftPanelCollapsed newState
  ∧ saved_value newState "ui.rightPanel.collapsed"
    = bool_toString <$> UIState.p_rightPanelCollapsed newState
  ∧ saved_value newState "ui.leftPanel.width"
    = number_toString <$> UIState.p_leftPanelWidth newState
  ∧ saved_value newState "ui.rightPanel.width"
    = number_toString <$> UIState.p_rightPanelWidth newState
  ∧ saved_value newState "ui.claudeProjects.collapsed"
    = bool_toString <$> UIState.p_claudeProjectsCollapsed newState.
Proof. repeat split; reflexivity. Qed.

(** reloading after a save that holds no width gives the reloaded layout
    with the saved fields merged in *)
Lemma load_after_save (newState : UIState.partial) (σ : gmap string string)
    (st2 : State) :
  UIState.p_leftPanelWidth newState = None →
  UIState.p_rightPanelWidth newState = None →
  uiState (loadUIState (Some (store_run (saveUIState newState) σ)) st2).1
  = UIState.merge (uiState (loadUIState (Some σ) st2).1) newState.
Proof.
  intros Hl Hr.
  destruct (saved_value_keys newState) as (E1 & E2 & E3 & E4 & E5).
  unfold loadUIState. cbn [fst]. unfold setUIState. cbn [uiState].
  unfold UIState.merge. cbn [UIState.leftPanelCollapsed
    UIState.rightPanelCollapsed UIState.leftPanelWidth
    UIState.rightPanelWidth UIState.claudeProjectsCollapsed].
  rewrite !saveUIState_lookup, E1, E2, E3, E4, E5, Hl, Hr.
  destruct (UIState.p_leftPanelCollapsed newState) as [[]|],
    (UIState.p_rightPanelCollapsed newState) as [[]|],
    (UIState.p_claudeProjectsCollapsed newState) as [[]|]; reflexivity.
Qed.

Lemma press_agrees (t : Toggle) (cfg : State * gmap string string)
    (st2 : State) :
  uiState (loadUIState (Some cfg.2) st2).1 = uiState cfg.1 →
  uiState (loadUIState (Some (press t cfg).2) st2).1 = uiState (press t cfg).1.
Proof.
  destruct cfg as [st σ]. cbn [fst snd]. intros H.
  destruct t; unfold press, toggleLeftPanel, toggleRightPanel,
    toggleClaudeProjects, toggle; cbn [fst snd];
    (rewrite load_after_save by reflexivity); rewrite H; reflexivity.
Qed.

Lemma presses_agree (ts : list Toggle) (cfg : State * gmap string string)
    (st2 : State) :
  uiState (loadUIState (Some cfg.2) st2).1 = uiState cfg.1 →
  uiState (loadUIState (Some (presses ts cfg).2) st2).1
  = uiState (presses ts cfg).1.
Proof.
  revert cfg. induction ts as [|t ts IH]; intros cfg H; [done|].
  apply (IH (press t cfg)). by apply press_agrees.
Qed.

(** X3.  After the settings were loaded, any sequence of presses on the
    three collapse buttons leaves a store from which a restart reloads
    exactly the layout that is on screen. *)
Theorem layout_survives_restart (σ : gmap string string) (st st2 : State)
    (ts : list Toggle) :
  let cfg := presses ts ((loadUIState (Some σ) st).1, σ) in
  uiState (loadUIState (Some cfg.2) st2).1 = uiState cfg.1.
Proof. intros cfg. by apply presses_agree. Qed.

End LayoutRoundTrip.

(** ** Searching and loading the project lists *)

Section SearchAndLoad.
Import Layout.

Lemma string_app_assoc (a b c : string) : (a +:+ b) +:+ c = a +:+ (b +:+ c).
Proof.
  induction a as [|x a IH]; [done|].
  change (String x ((a +:+ b) +:+ c) = String x (a +:+ b +:+ c)).
  by f_equal.
Qed.

Lemma includes_empty (s : string) : includes s "" = true.
Proof. by destruct s. Qed.

Lemma matches_empty (p : Project.t) : matches "" p = true.
Proof. unfold matches. simpl. by rewrite includes_empty. Qed.

Lemma filter_all {A} (f : A → bool) (l : list A) :
  (∀ x, f x = true) → List.filter f l = l.
Proof.
  intros H. induction l as [|x l IH]; simpl; [done|]. by rewrite H, IH.
Qed.

Lemma filter_narrows {A} (f g : A → bool) (l : list A) :
  (∀ x, f x = true → g x = true) →
  List.filter f l `sublist_of` List.filter g l.
Proof.
  intros H. induction l as [|x l IH]; simpl; [constructor|].
  destruct (f x) eqn:Ef.
  - rewrite (H x Ef). by constructor.
  - destruct (g x); [by constructor | done].
Qed.

Lemma occurs_part (q1 q2 s : string) :
  occurs_ignoring_case (q1 +:+ q2) s →
  occurs_ignoring_case q1 s ∧ occurs_ignoring_case q2 s.
Proof.
  intros (pre & mid & post & -> & H%toLowerCase_equal).
  rewrite toLowerCase_app in H.
  apply toLowerCase_split in H as (a & b & -> & Ha & Hb).
  apply toLowerCase_equal in Ha, Hb. split.
  - exists pre, a, (b +:+ post). by rewrite string_app_assoc.
  - exists (pre +:+ a), b, post. by rewrite !string_app_assoc.
Qed.

Lemma matches_part (q1 q2 : string) (p : Project.t) :
  matches (q1 +:+ q2) p = true →
  matches q1 p = true ∧ matches q2 p = true.
Proof.
  rewrite !matches_spec.
  intros [H%occurs_part | H%occurs_part]; tauto.
Qed.

Lemma includes_trans (s q r : string) :
  includes s q = true → includes q r = true → includes s r = true.
Proof.
  rewrite !includes_spec. intros (a & b & ->) (c & d & ->).
  exists (a +:+ c), (d +:+ b). by rewrite !string_app_assoc.
Qed.

Lemma matches_within (q1 q2 : string) (p : Project.t) :
  includes (toLowerCase q2) (toLowerCase q1) = true →
  matches q2 p = true → matches q1 p = true.
Proof.
  unfold matches. rewrite !orb_true_iff.
  intros H [H2 | H2]; [left | right]; by apply (includes_trans _ _ _ H2).
Qed.

(** X4.  With an empty search text both lists are shown in full.  A
    search text whose lower-case form contains the lower-case form of
    another text shows, of each list, a sub-list of what the other text
    shows (same relative order).  On text as modelled here
    (characters below U+0100, where the lower case is taken letter by
    letter) that covers typing: the entries shown for a text are among
    those shown for any beginning and for any ending of that text. *)
Theorem search_narrows (st : State) :
  filteredUserProjects (setSearchQuery "" st) = userProjects st
  ∧ filteredClaudeProjects (setSearchQuery "" st) = claudeProjects st
  ∧ (∀ q1 q2,
       includes (toLowerCase q2) (toLowerCase q1) = true →
       filteredUserProjects (setSearchQuery q2 st)
         `sublist_of` filteredUserProjects (setSearchQuery q1 st)
       ∧ filteredClaudeProjects (setSearchQuery q2 st)
           `sublist_of` filteredClaudeProjects (setSearchQuery q1 st))
  ∧ ∀ q1 q2,
      filteredUserProjects (setSearchQuery (q1 +:+ q2) st)
        `sublist_of` filteredUserProjects (setSearchQuery q1 st)
      ∧ filteredUserProjects (setSearchQuery (q1 +:+ q2) st)
          `sublist_of` filteredUserProjects (setSearchQuery q2 st)
      ∧ filteredClaudeProjects (setSearchQuery (q1 +:+ q2) st)
          `sublist_of` filteredClaudeProjects (setSearchQuery q1 st)
      ∧ filteredClaudeProjects (setSearchQuery (q1 +:+ q2) st)
          `sublist_of` filteredClaudeProjects (setSearchQuery q2 st).
Proof.
  unfold filteredUserProjects, filteredClaudeProjects. simpl.
  split; [apply filter_all, matches_empty|].
  split; [apply filter_all, matches_empty|].
  split.
  - intros q1 q2 H.
    split; apply filter_narrows; intros p; by apply matches_within.
  - intros q1 q2.
    repeat split; apply filter_narrows; intros p H;
      by apply matches_part in H as [? ?].
Qed.

(** X5.  When one of the two requests of a load is rejected, nothing of the
    reply that did arrive is applied: the three project lists, the session
    list and the selection stay as they were.  The registry is asked only
    after the discovery list arrived, and in every case the load ends with
    the loading mark off. *)
Theorem loadProjects_rejected (claudeReply userReply : option (list Project.t))
    (st : State) :
  claudeReply = None ∨ userReply = None →
  let res := loadProjects claudeReply userReply st in
  res.1 = setLoading false st
  ∧ projects res.1 = projects st
  ∧ userProjects res.1 = userProjects st
  ∧ claudeProjects res.1 = claudeProjects st
  ∧ sessions res.1 = sessions st
  ∧ currentProject res.1 = currentProject st
  ∧ currentSession res.1 = currentSession st
  ∧ loading res.1 = false
  ∧ res.2 = (match claudeReply with
             | Some _ => [ListProjects; GetUserProjects]
             | None => [ListProjects]
             end).
Proof.
  intros H. unfold loadProjects.
  destruct claudeReply as [c|], userReply as [u|]; simpl;
    try (destruct H as [H | H]; discriminate H); done.
Qed.

End SearchAndLoad.

(** ** What every run of the component keeps *)

Section RunFacts.
Import Layout Run.

Lemma step_consistent (e : Event) (st : State) (σ : gmap string string) :
  invariant st σ → consistent st → enabled e st → consistent (step e st).1.
Proof.
  intros (Hc & _ & _ & _) Hcons He.
  assert (Hcons' : consistent (st, @nil ApiCall).1) by exact Hcons.
  pose proof Hcons as (Hl & Hs & Hb).
  destruct e; simpl in He; cbn [step].
  - destruct reply; simpl; done.
  - destruct claudeReply, userReply; simpl; done.
  - done.
  - done.
  - done.
  - done.
  - unfold handleProjectSelect, loadSessions.
    destruct reply; unfold consistent; simpl;
      (split; [done|]); (split; [by intros [? [=]] | by intros ? ? [=]]).
  - destruct He as [Hp Hin]. unfold consistent. simpl.
    split; [done|]. split; [done|].
    intros cs cp [= <-] Hcp Ht.
    apply allSessions_cases in Hin as [Hin | Hin]; [|by apply Hb].
    unfold confirmed_only in Hc. rewrite forallb_forall in Hc.
    apply Hc in Hin. rewrite Ht in Hin. discriminate Hin.
  - unfold handleCreateNewSession.
    destruct (currentProject st) as [cp|] eqn:E; [|exact Hcons'].
    unfold consistent. simpl. rewrite E.
    split; [done|]. split; [by eauto|].
    intros cs cp' [= <-] [= <-] _. by split.
  - unfold onSessionCreated, onSessionCreated_of.
    destruct (currentProject st) as [cp|] eqn:E; [|exact Hcons].
    destruct (currentSession st) as [cs|] eqn:E'; [|exact Hcons].
    destruct (truthy (Session.isTemporary cs)) eqn:Et; [|exact Hcons].
    unfold consistent. simpl. rewrite E, E'.
    split; [done|]. split; [by eauto|].
    intros cs' cp' [= <-] [= <-] _. simpl. by apply Hb.
  - unfold consistent. simpl. split; [done|].
    split; [by intros [? [=]] | by intros ? ? [=]].
Qed.

Lemma reachable_consistent (st : State) (σ : gmap string string) :
  reachable st σ → consistent st.
Proof.
  induction 1 as [σ | st σ e Hr IH He].
  - repeat split; simpl; try done; by intros [? [=]].
  - apply (step_consistent e st σ); [by apply reachable_invariant | done..].
Qed.

(** X6.  In every state that a run reaches, the merged project list is the
    registered list followed by the discovered list, and the two lists on
    screen, one after the other, are the search applied to the merged
    list. *)
Theorem merged_list_kept (st : State) (σ : gmap string string) :
  reachable st σ →
  projects st = userProjects st ++ claudeProjects st
  ∧ filteredUserProjects st ++ filteredClaudeProjects st
    = List.filter (matches (searchQuery st)) (projects st)
  ∧ (length (filteredUserProjects st) + length (filteredClaudeProjects st)
     ≤ length (projects st))%nat.
Proof.
  intros (Hl & _)%reachable_consistent.
  assert (E : filteredUserProjects st ++ filteredClaudeProjects st
              = List.filter (matches (searchQuery st)) (projects st)).
  { unfold filteredUserProjects, filteredClaudeProjects.
    by rewrite Hl, List.filter_app. }
  split; [done|]. split; [done|].
  rewrite <- length_app, E. apply List.filter_length_le.
Qed.

(** X7.  In every state that a run reaches, a selected session comes with a
    selected project, so the conversation view is rendered exactly when a
    session is selected; and a selection that carries the temporary flag
    has the identifier and the path of the selected project. *)
Theorem selection_kept (st : State) (σ : gmap string string) :
  reachable st σ →
  (is_Some (currentSession st) → is_Some (currentProject st))
  ∧ (is_Some (ClaudeCodeSession_key st) ↔ is_Some (currentSession st))
  ∧ (∀ cs cp,
       currentSession st = Some cs → currentProject st = Some cp →
       truthy (Session.isTemporary cs) = true →
       Session.project_id cs = Project.id cp
       ∧ Session.project_path cs = Project.path cp).
Proof.
  intros (_ & Hs & Hb)%reachable_consistent.
  split; [done|]. split; [|done].
  unfold ClaudeCodeSession_key. split.
  - destruct (currentProject st), (currentSession st); by eauto.
  - intros H. destruct (Hs H) as [cp ->]. destruct H as [cs ->]. by eauto.
Qed.

(** X8.  In every state that a run reaches, the history panel shows the
    session list, preceded by the selection when the selection carries the
    temporary flag and no entry has its identifier; so it shows at most
    one entry with the flag, that entry is the selection, and a selection
    with the flag always has an entry with its identifier. *)
Theorem history_panel (st : State) (σ : gmap string string) :
  reachable st σ →
  (allSessions st = sessions st
   ∨ ∃ cs, currentSession st = Some cs
           ∧ truthy (Session.isTemporary cs) = true
           ∧ (∀ s, In s (sessions st) → Session.id s ≠ Session.id cs)
           ∧ allSessions st = cs :: sessions st)
  ∧ (length (placeholders (allSessions st)) ≤ 1)%nat
  ∧ (∀ s, In s (allSessions st) → truthy (Session.isTemporary s) = true →
          currentSession st = Some s)
  ∧ (∀ cs, currentSession st = Some cs →
           truthy (Session.isTemporary cs) = true →
           ∃ s, In s (allSessions st) ∧ Session.id s = Session.id cs).
Proof.
  intros (Hc & _)%reachable_invariant.
  assert (Hnone : ∀ s, In s (sessions st) →
                       truthy (Session.isTemporary s) = true → False).
  { intros s Hs Ht. unfold confirmed_only in Hc.
    rewrite forallb_forall in Hc. apply Hc in Hs.
    rewrite Ht in Hs. discriminate Hs. }
  unfold allSessions.
  destruct (currentSession st) as [cs|] eqn:E.
  2: { split; [by left|]. rewrite (confirmed_only_placeholders _ Hc).
       split; [simpl; lia|]. split; [|done].
       intros s Hs Ht. destruct (Hnone s Hs Ht). }
  destruct (truthy (Session.isTemporary cs)) eqn:Et.
  2: { split; [by left|]. rewrite (confirmed_only_placeholders _ Hc).
       split; [simpl; lia|]. split; [|congruence].
       intros s Hs Ht. destruct (Hnone s Hs Ht). }
  destruct (findIndex _ (sessions st) =? -1)%Z eqn:Ei.
  - apply Z.eqb_eq in Ei. pose proof (proj1 (findIndex_none _ _) Ei) as Ei'.
    split.
    { right. exists cs. repeat split; try done.
      intros s Hs. apply Ei' in Hs. by apply bool_decide_eq_false in Hs. }
    unfold placeholders. simpl. rewrite Et.
    fold (placeholders (sessions st)).
    rewrite (confirmed_only_placeholders _ Hc).
    split; [simpl; lia|]. split.
    + intros s [<- | Hs] Ht; [done | destruct (Hnone s Hs Ht)].
    + intros cs' [= <-] _. exists cs. split; [by left | done].
  - split; [by left|]. rewrite (confirmed_only_placeholders _ Hc).
    split; [simpl; lia|]. split.
    + intros s Hs Ht. destruct (Hnone s Hs Ht).
    + intros cs' [= <-] _. unfold findIndex in Ei.
      destruct (list_find _ (sessions st)) as [[i s]|] eqn:Ef;
        [|discriminate Ei].
      apply list_find_Some in Ef as (Hi & Hs & _).
      exists s. split.
      * apply list_elem_of_In. by eapply list_elem_of_lookup_2.
      * by apply bool_decide_eq_true in Hs.
Qed.

End RunFacts.

(** ** More on the session lifecycle *)

Section Callbacks.
Import Layout.

(** what a callback keeps of a selection with the temporary flag *)
Lemma callback_step (r : string) (now : Z) (st : State) (cp : Project.t)
    (cs : Session.t) :
  currentProject st = Some cp →
  currentSession st = Some cs →
  truthy (Session.isTemporary cs) = true →
  currentProject (onSessionCreated r now st) = Some cp
  ∧ ∃ cs', currentSession (onSessionCreated r now st) = Some cs'
           ∧ Session.id cs' = r
           ∧ Session.isTemporary cs' = Session.isTemporary cs
           ∧ Session.project_id cs' = Session.project_id cs
           ∧ Session.project_path cs' = Session.project_path cs
           ∧ Session.created_at cs' = Session.created_at cs
           ∧ Session.first_message cs' = Session.first_message cs.
Proof.
  intros Hp Hs Ht. unfold onSessionCreated, onSessionCreated_of.
  rewrite Hp, Hs, Ht. simpl.
  rewrite Hs. split; [done|]. eexists. split; [reflexivity|]. done.
Qed.

(** X9.  Whatever callbacks follow the creation of a placeholder, the key
    of the conversation view stays ["temp-"] followed by the project
    identifier and the view keeps receiving no session: the selection
    keeps its flag, project, creation time and absent first message, and
    carries the identifier of the last callback. *)
Theorem callbacks_keep_view (l : list (string * Z)) (st : State)
    (cp : Project.t) (cs : Session.t) :
  currentProject st = Some cp →
  currentSession st = Some cs →
  truthy (Session.isTemporary cs) = true →
  let st' := callbacks l st in
  ClaudeCodeSession_key st' = Some ("temp-" +:+ Project.id cp)
  ∧ ClaudeCodeSession_key st' = ClaudeCodeSession_key st
  ∧ ClaudeCodeSession_session st' = None
  ∧ currentProject st' = Some cp
  ∧ ∃ cs', currentSession st' = Some cs'
           ∧ Session.id cs' = default (Session.id cs) (last (map fst l))
           ∧ Session.isTemporary cs' = Session.isTemporary cs
           ∧ Session.project_id cs' = Session.project_id cs
           ∧ Session.project_path cs' = Session.project_path cs
           ∧ Session.created_at cs' = Session.created_at cs
           ∧ Session.first_message cs' = Session.first_message cs.
Proof.
  intros Hp Hs Ht st'.
  assert (H : currentProject st' = Some cp
              ∧ ∃ cs', currentSession st' = Some cs'
                  ∧ Session.id cs' = default (Session.id cs) (last (map fst l))
                  ∧ Session.isTemporary cs' = Session.isTemporary cs
                  ∧ Session.project_id cs' = Session.project_id cs
                  ∧ Session.project_path cs' = Session.project_path cs
                  ∧ Session.created_at cs' = Session.created_at cs
                  ∧ Session.first_message cs' = Session.first_message cs).
  { subst st'. revert st cs Hp Hs Ht.
    induction l as [|[r now] l IH]; intros st cs Hp Hs Ht.
    - split; [done|]. by exists cs.
    - destruct (callback_step r now st cp cs Hp Hs Ht)
        as (Hp1 & cs1 & Hs1 & Hid & Hfl & Hpi & Hpp & Hca & Hfm).
      destruct (IH (onSessionCreated r now st) cs1 Hp1 Hs1)
        as (Hp2 & cs2 & Hs2 & Hid2 & Hrest); [congruence|].
      split; [exact Hp2|]. exists cs2. split; [exact Hs2|].
      split.
      { rewrite Hid2. cbn [map fst]. rewrite last_cons.
        by destruct (last (map fst l)). }
      destruct Hrest as (? & ? & ? & ? & ?). repeat split; congruence. }
  destruct H as (Hp' & cs' & Hs' & Hrest).
  assert (Ht' : truthy (Session.isTemporary cs') = true).
  { destruct Hrest as (_ & -> & _). done. }
  unfold ClaudeCodeSession_key, ClaudeCodeSession_session.
  rewrite Hp', Hs', Ht', Hp, Hs, Ht.
  repeat split; try done. by exists cs'.
Qed.

Lemma callback_sessions (r : string) (now : Z) (st : State) (cp : Project.t)
    (cs : Session.t) :
  currentProject st = Some cp →
  currentSession st = Some cs →
  truthy (Session.isTemporary cs) = true →
  ∃ x, Session.id x = r
       ∧ sessions (onSessionCreated r now st)
         = x :: List.filter (fun s => negb (bool_decide (Session.id s = r)))
                  (sessions st).
Proof.
  intros Hp Hs Ht. unfold onSessionCreated, onSessionCreated_of.
  rewrite Hp, Hs, Ht. simpl.
  eexists. split; [|reflexivity]. done.
Qed.

Lemma filter_not_id_twice (r : string) (x : Session.t) (l : list Session.t) :
  Session.id x = r →
  List.filter (fun s => negb (bool_decide (Session.id s = r)))
    (x :: List.filter (fun s => negb (bool_decide (Session.id s = r))) l)
  = List.filter (fun s => negb (bool_decide (Session.id s = r))) l.
Proof.
  intros Hx. simpl. rewrite bool_decide_eq_true_2 by done. simpl.
  apply filter_twice.
Qed.

(** X10.  A callback never drops an identifier from the session list and
    lengthens the list by one entry at most; a second callback with the
    same identifier leaves the same identifiers in the same order, the
    same entries after the first, and the same identifier in the
    selection. *)
Theorem callback_keeps_history (r : string) (now now' : Z) (st : State)
    (cp : Project.t) (cs : Session.t) :
  currentProject st = Some cp →
  currentSession st = Some cs →
  truthy (Session.isTemporary cs) = true →
  let st1 := onSessionCreated r now st in
  let st2 := onSessionCreated r now' st1 in
  (∀ i, In i (map Session.id (sessions st)) →
        In i (map Session.id (sessions st1)))
  ∧ (length (sessions st1) ≤ S (length (sessions st)))%nat
  ∧ map Session.id (sessions st2) = map Session.id (sessions st1)
  ∧ tail (sessions st2) = tail (sessions st1)
  ∧ (Session.id <$> currentSession st2) = (Session.id <$> currentSession st1).
Proof.
  intros Hp Hs Ht. cbv zeta.
  destruct (callback_step r now st cp cs Hp Hs Ht)
    as (Hp1 & cs1 & Hs1 & Hid1 & Hfl1 & _).
  assert (Ht1 : truthy (Session.isTemporary cs1) = true) by congruence.
  destruct (callback_sessions r now st cp cs Hp Hs Ht) as (x & Hx & E1).
  destruct (callback_sessions r now' _ cp cs1 Hp1 Hs1 Ht1) as (y & Hy & E2).
  rewrite E1 in E2. rewrite filter_not_id_twice in E2 by done.
  split.
  { intros i Hi. rewrite E1. simpl.
    destruct (decide (i = r)) as [-> | Hne]; [by left|]. right.
    apply in_map_iff in Hi as (s & <- & Hin). apply in_map.
    apply filter_In. split; [done|].
    by apply negb_true_iff, bool_decide_eq_false. }
  split.
  { rewrite E1. simpl. apply le_n_S, List.filter_length_le. }
  split; [rewrite E1, E2; simpl; congruence|].
  split; [by rewrite E1, E2|].
  destruct (callback_step r now' _ cp cs1 Hp1 Hs1 Ht1)
    as (_ & cs2 & Hs2 & Hid2 & _).
  rewrite Hs1, Hs2. simpl. congruence.
Qed.

(** X11.  The new-session action does nothing when no project is
    selected; on a selected project, two placeholders get the same
    identifier exactly when they are created at the same millisecond. *)
Theorem placeholder_identifiers (st : State) :
  (currentProject st = None →
   ∀ now, handleCreateNewSession now st = (st, []))
  ∧ (is_Some (currentProject st) →
     ∀ now1 now2,
       (Session.id <$> currentSession (handleCreateNewSession now1 st).1)
       = (Session.id <$> currentSession (handleCreateNewSession now2 st).1)
       ↔ now1 = now2).
Proof.
  unfold handleCreateNewSession. split.
  - intros ->. done.
  - intros [cp ->] now1 now2. simpl. split; [|by intros ->].
    intros [= H]. change (pretty now1 = pretty now2) in H.
    by apply (inj pretty) in H.
Qed.

End Callbacks.

(** ** More on the registry *)

Section RegistryMore.
Import UserProjectService UserProjectsApi RegistryRun.

Variable encodeProjectPath : string → string.
Variable fs : string → FsEntry.

Lemma insert_desc_perm (r : UserProject.t) (l : list UserProject.t) :
  insert_desc r l ≡ₚ r :: l.
Proof.
  induction l as [|x l IH]; simpl; [done|].
  destruct (_ <? _)%Z; [done|]. rewrite IH. apply Permutation_swap.
Qed.

Lemma insert_desc_sorted (r : UserProject.t) (l : list UserProject.t) :
  created_desc l → created_desc (insert_desc r l).
Proof.
  induction l as [|x l IH]; simpl; [done|]. intros [Hx Hl].
  destruct (_ <? _)%Z eqn:E; simpl.
  - apply Z.ltb_lt in E. split; [|done].
    intros y [<- | Hy]; [lia|]. specialize (Hx y Hy). lia.
  - apply Z.ltb_ge in E. split; [|by apply IH].
    intros y Hy. apply insert_desc_In in Hy as [-> | Hy]; [done|].
    by apply Hx.
Qed.

Lemma order_created_at_desc_perm (l : list UserProject.t) :
  order_created_at_desc l ≡ₚ l.
Proof.
  induction l as [|x l IH]; simpl; [done|].
  by rewrite insert_desc_perm, IH.
Qed.

(** X12.  The listed user projects are exactly the active records, each
    once, newest first. *)
Theorem listing_newest_first (db : Repository) :
  getAllUserProjects db
    ≡ₚ List.filter (fun r => UserProject.is_active r) (rows db)
  ∧ created_desc (getAllUserProjects db)
  ∧ (∀ x, In x (getAllUserProjects db)
          ↔ In x (rows db) ∧ UserProject.is_active x = true)
  ∧ length (get_user_projects encodeProjectPath db)
    = length (List.filter (fun r => UserProject.is_active r) (rows db)).
Proof.
  unfold get_user_projects, getAllUserProjects.
  split; [apply order_created_at_desc_perm|].
  split.
  { induction (List.filter _ (rows db)) as [|x l IH]; simpl; [done|].
    by apply insert_desc_sorted. }
  split; [intros x; apply getAllUserProjects_In|].
  by rewrite length_map, order_created_at_desc_perm.
Qed.

Lemma find_app_None {A} (f : A → bool) (l : list A) (x : A) :
  List.find f l = None → f x = true → List.find f (l ++ [x]) = Some x.
Proof.
  induction l as [|y l IH]; simpl; [by intros _ ->|].
  destruct (f y); [done|]. apply IH.
Qed.

(** X13.  After a successful add of [projectPath], the record is found by
    its path, its path counts as existing, the new project is listed with
    the registry key and the user-project mark, every project listed
    before is still listed, and a second add of the path is refused. *)
Theorem add_then_found (projectPath : string) (projectName : option string)
    (now : Z) (db : Repository) :
  (∀ r, In r (rows db) → UserProject.path r ≠ projectPath) →
  fs projectPath = Accessible true →
  let res := add_user_project encodeProjectPath fs projectPath projectName
               now db in
  ∃ row project,
    res.2 = Ok project
    ∧ project = to_project encodeProjectPath row
    ∧ getUserProjectByPath projectPath res.1 = Some row
    ∧ projectPathExists projectPath res.1 = true
    ∧ In project (get_user_projects encodeProjectPath res.1)
    ∧ Project.path project = projectPath
    ∧ Project.id project = encodeProjectPath projectPath
    ∧ Project.databaseId project = Some (next_id db)
    ∧ Project.isUserProject project = Some true
    ∧ (∀ q, In q (get_user_projects encodeProjectPath db) →
            In q (get_user_projects encodeProjectPath res.1))
    ∧ (∀ name' now',
         add_user_project encodeProjectPath fs projectPath name' now' res.1
         = (res.1, Err "Project already exists in the list")).
Proof.
  intros Hnone Hfs.
  assert (Hnd : ¬ (∃ r, In r (rows db) ∧ UserProject.path r = projectPath)).
  { intros (r & Hr & Hp). by apply (Hnone r). }
  destruct (add_creates encodeProjectPath fs projectPath projectName now db
              Hnd Hfs) as (row & E & Hid & Hpath & Hact).
  simpl. rewrite E. simpl. exists row, (to_project encodeProjectPath row).
  split; [done|]. split; [done|].
  assert (Hin : In row (rows db ++ [row])) by (apply in_app_iff; right; by left).
  split.
  { unfold getUserProjectByPath, findOne. simpl. apply find_app_None.
    - apply (getUserProjectByPath_None _ _ Hnd).
    - by apply bool_decide_eq_true. }
  split.
  { unfold projectPathExists. simpl. apply bool_decide_eq_true.
    rewrite List.filter_app, length_app. simpl.
    rewrite bool_decide_eq_true_2, Hact by done. simpl. lia. }
  split.
  { unfold get_user_projects. apply in_map.
    apply getAllUserProjects_In. by split. }
  split; [by simpl|]. split; [by simpl; rewrite Hpath|].
  split; [by simpl; rewrite Hid|]. split; [done|].
  split.
  { unfold get_user_projects. intros q (x & <- & Hx)%in_map_iff.
    apply in_map. apply getAllUserProjects_In.
    apply getAllUserProjects_In in Hx as [Hx Hxa]. split; [|done].
    simpl. apply in_app_iff. by left. }
  intros name' now'. apply add_duplicate. exists row. by split.
Qed.

Lemma nonempty_spec (s : string) : nonempty s = true ↔ s ≠ "".
Proof. by destruct s. Qed.

Lemma string_app_empty_r (s : string) : s +:+ "" = s.
Proof.
  induction s as [|c s IH]; [done|].
  change (String c (s +:+ "") = String c s). by f_equal.
Qed.

Lemma list_ascii_app (a b : string) :
  list_ascii_of_string (a +:+ b)
  = list_ascii_of_string a ++ list_ascii_of_string b.
Proof.
  induction a as [|x a IH]; [done|].
  change (x :: list_ascii_of_string (a +:+ b)
          = x :: (list_ascii_of_string a ++ list_ascii_of_string b)).
  by f_equal.
Qed.

Lemma last_segment_from_spec (s acc : string) :
  (∀ c, In c (list_ascii_of_string acc) → is_sep c = false) →
  ∃ pre,
    acc +:+ s = pre +:+ last_segment_from acc s
    ∧ (∀ c, In c (list_ascii_of_string (last_segment_from acc s)) →
            is_sep c = false)
    ∧ (pre = "" ∨ ∃ pre' c, pre = pre' +:+ String c "" ∧ is_sep c = true).
Proof.
  revert acc. induction s as [|c s IH]; intros acc Hacc; simpl.
  - exists "". split; [|split; [done | by left]].
    by rewrite string_app_empty_r.
  - destruct (is_sep c) eqn:Ec.
    + destruct (IH "") as (pre & E & Hno & Hpre); [done|].
      exists (acc +:+ String c "" +:+ pre). split; [|split; [done|]].
      * change ("" +:+ s) with s in E.
        change (String c s) with (String c "" +:+ s).
        rewrite !string_app_assoc. do 2 f_equal. exact E.
      * right. destruct Hpre as [-> | (pre' & c' & -> & Hc')].
        -- exists acc, c. by rewrite string_app_empty_r.
        -- exists (acc +:+ String c "" +:+ pre'), c'. split; [|done].
           by rewrite !string_app_assoc.
    + destruct (IH (acc +:+ String c "")) as (pre & E & Hno & Hpre).
      { intros c' Hc'. rewrite list_ascii_app in Hc'.
        apply in_app_iff in Hc' as [Hc' | Hc']; [by apply Hacc|].
        destruct Hc' as [<- | []]. done. }
      exists pre. split; [|done].
      rewrite <- E. change (String c s) with (String c "" +:+ s).
      by rewrite string_app_assoc.
Qed.

(** X14.  The name recorded by an add is never empty: it is the given name
    when there is one, else the text after the last slash or backslash of
    the path, else "Unnamed Project".  That text is the longest ending of
    the path without a slash or backslash. *)
Theorem recorded_name (projectPath : string) (projectName : option string)
    (now : Z) (db : Repository) (project : Project.t) :
  (add_user_project encodeProjectPath fs projectPath projectName now db).2
  = Ok project →
  (∃ name,
     Project.name project = Some name
     ∧ name ≠ ""
     ∧ (∀ given, projectName = Some given → given ≠ "" → name = given)
     ∧ (projectName = None ∨ projectName = Some "" →
        name = if nonempty (last_segment projectPath)
               then last_segment projectPath else "Unnamed Project"))
  ∧ ∃ pre,
      projectPath = pre +:+ last_segment projectPath
      ∧ (∀ c, In c (list_ascii_of_string (last_segment projectPath)) →
              is_sep c = false)
      ∧ (pre = "" ∨ ∃ pre' c, pre = pre' +:+ String c "" ∧ is_sep c = true).
Proof.
  intros H. split.
  - unfold add_user_project in H.
    destruct (getUserProjectByPath projectPath db); [discriminate H|].
    destruct (check_directory fs projectPath); [|discriminate H].
    simpl in H. injection H as <-. simpl. eexists. split; [reflexivity|].
    split.
    { destruct projectName as [[|ch given]|]; simpl;
        destruct (nonempty (last_segment projectPath)) eqn:E; try done;
        by apply nonempty_spec. }
    split.
    { intros given -> Hg. by destruct given. }
    intros [-> | ->]; reflexivity.
  - apply (last_segment_from_spec projectPath ""). done.
Qed.

Lemma find_none_iff {A} (f : A → bool) (l : list A) :
  List.find f l = None ↔ ∀ x, In x l → f x = false.
Proof.
  split; [apply find_none|].
  intros H. destruct (List.find f l) as [x|] eqn:E; [|done].
  apply find_some in E as [Hin Hf]. rewrite (H x Hin) in Hf. discriminate Hf.
Qed.

Lemma save_existing_ids (e : UserProject.t) (now : Z) (db : Repository) :
  map UserProject.id (rows (save_existing e now db))
  = map UserProject.id (rows db)
  ∧ next_id (save_existing e now db) = next_id db
  ∧ length (rows (save_existing e now db)) = length (rows db).
Proof.
  unfold save_existing. simpl. rewrite length_map. split; [|done].
  rewrite map_map. apply map_ext. intros r.
  case_bool_decide as E; [|done]. by case_bool_decide.
Qed.

Lemma save_existing_others (e : UserProject.t) (now : Z) (db : Repository)
    (x : UserProject.t) :
  UserProject.id x ≠ UserProject.id e →
  (In x (rows (save_existing e now db)) ↔ In x (rows db)).
Proof.
  intros Hne. unfold save_existing. simpl. rewrite in_map_iff. split.
  - intros (y & Hy & Hin). revert Hy. case_bool_decide as E.
    + case_bool_decide; intros <-; [done|]. simpl in Hne. done.
    + by intros <-.
  - intros Hin. exists x. split; [|done]. by rewrite bool_decide_eq_false_2.
Qed.

(** X15.  A removal succeeds exactly when a record has the key, active or
    not; otherwise it fails with "User project with ID ... not found" and
    the registry is untouched.  A removal never changes the number of
    records, their keys, or the records with another key. *)
Theorem removal_outcome (projectId : N) (now : Z) (db : Repository) :
  let res := remove_user_project projectId now db in
  (res.2 = Ok true ↔ ∃ r, In r (rows db) ∧ UserProject.id r = projectId)
  ∧ ((∀ r, In r (rows db) → UserProject.id r ≠ projectId) →
     res = (db, Err ("User project with ID " +:+ pretty projectId
                     +:+ " not found")))
  ∧ map UserProject.id (rows res.1) = map UserProject.id (rows db)
  ∧ next_id res.1 = next_id db
  ∧ (∀ x, UserProject.id x ≠ projectId →
          (In x (rows res.1) ↔ In x (rows db))).
Proof.
  unfold remove_user_project, deleteUserProject, findOne.
  destruct (List.find _ (rows db)) as [r|] eqn:E; cbn [fst snd].
  - apply find_some in E as [Hin Hid]. apply bool_decide_eq_true in Hid.
    set (e := UserProject.mk _ _ _ _ false _ _).
    destruct (save_existing_ids e now db) as (Hids & Hnext & _).
    split; [split; [by eauto | done]|].
    split; [intros H; by destruct (H r Hin)|].
    split; [exact Hids|]. split; [exact Hnext|].
    intros x Hx. apply save_existing_others. simpl. congruence.
  - pose proof (proj1 (find_none_iff _ _) E) as Hnone.
    split.
    { split; [done|]. intros (r & Hin & Hid).
      apply Hnone in Hin. by apply bool_decide_eq_false in Hin. }
    done.
Qed.

Lemma find_unique_id (id : N) (l : list UserProject.t) (r x : UserProject.t) :
  NoDup (map UserProject.id l) →
  List.find (fun r => bool_decide (UserProject.id r = id)) l = Some r →
  In x l → UserProject.id x = id → x = r.
Proof.
  intros Hnd Hf Hx Hid. apply find_some in Hf as [Hr Hrid].
  apply bool_decide_eq_true in Hrid.
  induction l as [|y l IH]; [done|]. simpl in Hnd.
  apply NoDup_cons in Hnd as [Hy Hnd].
  destruct Hx as [-> | Hx], Hr as [-> | Hr]; try done.
  - exfalso. apply Hy. apply list_elem_of_In, in_map_iff.
    exists r. split; [congruence | done].
  - exfalso. apply Hy. apply list_elem_of_In, in_map_iff.
    exists x. split; [congruence | done].
  - by apply IH.
Qed.

(** with unique keys, a save changes the one record with the key *)
Lemma save_existing_unique (e r : UserProject.t) (now : Z) (db : Repository) :
  NoDup (map UserProject.id (rows db)) →
  List.find (fun x => bool_decide (UserProject.id x = UserProject.id e))
    (rows db) = Some r →
  rows (save_existing e now db)
  = map (fun x => if bool_decide (x = r)
                  then (if bool_decide (r = e) then r
                        else UserProject.mk (UserProject.id e)
                               (UserProject.name e) (UserProject.path e)
                               (UserProject.description e)
                               (UserProject.is_active e)
                               (UserProject.created_at e) now)
                  else x)
      (rows db).
Proof.
  intros Hnd Hf. unfold save_existing. simpl.
  apply map_ext_in. intros x Hx.
  case_bool_decide as E1.
  - rewrite (find_unique_id _ _ r x Hnd Hf Hx E1).
    by rewrite (bool_decide_eq_true_2 (r = r)).
  - rewrite bool_decide_eq_false_2; [done|]. intros ->.
    apply find_some in Hf as [_ Hr]. by apply bool_decide_eq_true in Hr.
Qed.

Lemma map_unique {A B} (f : A → B) (l : list A) (x y : A) :
  NoDup (map f l) → In x l → In y l → f x = f y → x = y.
Proof.
  induction l as [|z l IH]; [done|]. simpl.
  intros [Hz Hnd]%NoDup_cons [-> | Hx] [-> | Hy] E; try done.
  - exfalso. apply Hz. apply list_elem_of_In, in_map_iff. by exists y.
  - exfalso. apply Hz. apply list_elem_of_In, in_map_iff. by exists x.
  - by apply IH.
Qed.

Lemma repository_eq (db1 db2 : Repository) :
  rows db1 = rows db2 → next_id db1 = next_id db2 → db1 = db2.
Proof. destruct db1, db2. simpl. by intros -> ->. Qed.

Lemma map_id_fixed {A} (f : A → A) (l : list A) :
  (∀ x, In x l → f x = x) → map f l = l.
Proof.
  induction l as [|x l IH]; simpl; [done|]. intros H.
  rewrite H by (by left). rewrite IH; [done|]. intros y Hy. apply H. by right.
Qed.

Lemma removal_repeated_exact (projectId : N) (now now' : Z) (db : Repository)
    (r : UserProject.t) :
  NoDup (map UserProject.id (rows db)) →
  getUserProjectById projectId db = Some r →
  let db1 := (remove_user_project projectId now db).1 in
  remove_user_project projectId now' db1 = (db1, Ok true).
Proof.
  intros Hnd Hfind. unfold remove_user_project, deleteUserProject.
  unfold getUserProjectById in Hfind. rewrite Hfind. cbn [fst snd].
  set (e := UserProject.mk _ _ _ _ false _ _).
  pose proof Hfind as Hr. unfold findOne in Hr.
  apply find_some in Hr as [Hin Hid]. apply bool_decide_eq_true in Hid.
  destruct (save_existing_ids e now db) as (Hids & Hnext & _).
  destruct (save_existing_keeps_path e now db r Hin eq_refl eq_refl)
    as (x & Hx & Hxid & _).
  simpl in Hxid.
  destruct (find_finds (fun r => bool_decide (UserProject.id r = projectId))
              _ x Hx) as (r1 & Hf1).
  { apply bool_decide_eq_true. congruence. }
  unfold findOne. rewrite Hf1. cbn [fst snd].
  assert (Hr1 : In r1 (rows (save_existing e now db))
                ∧ UserProject.id r1 = projectId).
  { apply find_some in Hf1 as [? ?%bool_decide_eq_true]. done. }
  destruct Hr1 as [Hr1 Hr1id].
  assert (Hr1a : UserProject.is_active r1 = false).
  { apply (save_existing_rows e now db r1 Hr1); [simpl; congruence | done]. }
  f_equal. apply repository_eq; [|apply save_existing_ids].
  rewrite (save_existing_unique _ r1 now' (save_existing e now db)).
  - apply map_id_fixed. intros y Hy. case_bool_decide as E1; [|done].
    rewrite bool_decide_eq_true_2; [done|].
    destruct r1. simpl in *. by subst.
  - by rewrite Hids.
  - simpl. by rewrite Hr1id.
Qed.

(** X16.  With unique keys, removing a removed project again succeeds, and
    the listed projects, the paths and the active marks of the records are
    what they were after the first removal. *)
Theorem removal_repeated (projectId : N) (now now' : Z) (db : Repository)
    (r : UserProject.t) :
  NoDup (map UserProject.id (rows db)) →
  getUserProjectById projectId db = Some r →
  let db1 := (remove_user_project projectId now db).1 in
  let res := remove_user_project projectId now' db1 in
  res.2 = Ok true
  ∧ get_user_projects encodeProjectPath res.1
    = get_user_projects encodeProjectPath db1
  ∧ map UserProject.path (rows res.1) = map UserProject.path (rows db1)
  ∧ map UserProject.is_active (rows res.1)
    = map UserProject.is_active (rows db1).
Proof.
  intros Hnd Hfind. cbv zeta.
  by rewrite (removal_repeated_exact projectId now now' db r Hnd Hfind).
Qed.

(** X17.  Adding through the directory dialog is adding the first picked
    path with no name: the same registry results, the same project on
    success, the same refusal of a duplicate; only the message for a path
    that is not an accessible directory differs.  A canceled dialog, or
    one with no path, changes nothing. *)
Theorem dialog_add_agrees (picked : OpenDialogResult) (now : Z)
    (db : Repository) :
  let res := add_user_project_by_dialog encodeProjectPath fs picked now db in
  (canceled picked = true ∨ filePaths picked = [] →
   res = (db, Ok DialogCanceled))
  ∧ (∀ projectPath rest,
       canceled picked = false →
       filePaths picked = projectPath :: rest →
       let byPath := add_user_project encodeProjectPath fs projectPath None
                       now db in
       res.1 = byPath.1
       ∧ (∀ project, byPath.2 = Ok project ↔ res.2 = Ok (DialogAdded project))
       ∧ (byPath.2 = Err "Project already exists in the list"
          ↔ res.2 = Err "Project already exists in the list")
       ∧ (byPath.2 = Err "Cannot access the directory"
          ↔ res.2 = Err "Cannot access the selected directory")).
Proof.
  unfold add_user_project_by_dialog. split.
  - intros [-> | ->]; [done|]. by destruct (canceled picked).
  - intros projectPath rest -> ->. simpl.
    unfold add_user_project, check_directory.
    destruct (getUserProjectByPath projectPath db); simpl.
    { repeat split; try done; intros ? [=]. }
    destruct (fs projectPath) as [|[]]; simpl.
    + repeat split; try done; intros ? [=].
    + repeat split; try done; by intros [= <-].
    + repeat split; try done; intros ? [=].
Qed.

(** X18.  An update fails with "User project with ID ... not found",
    leaving the registry untouched, when no record has the key; in every
    case it keeps the keys of all records, their number, the next key and
    every record with another key.  With unique keys, the updated record
    takes the fields that are present in the request, keeps the others and
    keeps its creation date. *)
Theorem update_outcome (data : UserProjectUpdateData.t) (now : Z)
    (db : Repository) :
  let res := update_user_project data now db in
  ((∀ r, In r (rows db) → UserProject.id r ≠ UserProjectUpdateData.id data) →
   res = (db, Err ("User project with ID "
                   +:+ pretty (UserProjectUpdateData.id data)
                   +:+ " not found")))
  ∧ map UserProject.id (rows res.1) = map UserProject.id (rows db)
  ∧ next_id res.1 = next_id db
  ∧ (∀ x, UserProject.id x ≠ UserProjectUpdateData.id data →
          (In x (rows res.1) ↔ In x (rows db)))
  ∧ (NoDup (map UserProject.id (rows db)) →
     ∀ r, In r (rows db) →
          UserProject.id r = UserProjectUpdateData.id data →
          ∃ r', res.2 = Ok r'
                ∧ In r' (rows res.1)
                ∧ UserProject.id r' = UserProject.id r
                ∧ UserProject.created_at r' = UserProject.created_at r
                ∧ UserProject.name r'
                  = default (UserProject.name r) (UserProjectUpdateData.name data)
                ∧ UserProject.path r'
                  = default (UserProject.path r) (UserProjectUpdateData.path data)
                ∧ UserProject.is_active r'
                  = default (UserProject.is_active r)
                      (UserProjectUpdateData.is_active data)).
Proof.
  unfold update_user_project, updateUserProject, findOne.
  destruct (List.find _ (rows db)) as [r0|] eqn:E; cbn [fst snd].
  - pose proof E as Hf. apply find_some in Hf as [Hin Hid].
    apply bool_decide_eq_true in Hid.
    set (e := UserProject.mk (UserProjectUpdateData.id data) _ _ _ _ _ _).
    destruct (save_existing_ids e now db) as (Hids & Hnext & _).
    split; [intros H; by destruct (H r0 Hin)|].
    split; [exact Hids|]. split; [exact Hnext|].
    split; [intros x Hx; by apply save_existing_others|].
    intros Hnd r Hr Hrid.
    assert (r = r0) as -> by (apply (find_unique_id _ _ r0 r Hnd E Hr Hrid)).
    rewrite (save_existing_unique e r0 now db Hnd E).
    eexists. split; [reflexivity|]. split.
    + apply in_map_iff. exists r0. split; [|done].
      rewrite bool_decide_eq_true_2 by done.
      case_bool_decide as E1; [exact E1 | done].
    + case_bool_decide; simpl; done.
  - pose proof (proj1 (find_none_iff _ _) E) as Hnone.
    split; [done|]. split; [done|]. split; [done|]. split; [done|].
    intros _ r Hr Hrid. apply Hnone in Hr.
    by apply bool_decide_eq_false in Hr.
Qed.

Lemma add_effect (fs' : string → FsEntry) (projectPath : string)
    (projectName : option string) (now : Z) (db : Repository) :
  let db' := (add_user_project encodeProjectPath fs' projectPath projectName
                now db).1 in
  db' = db
  ∨ (∃ row,
       db' = mkRepository (rows db ++ [row]) (next_id db + 1)
       ∧ UserProject.id row = next_id db
       ∧ UserProject.path row = projectPath
       ∧ ∀ r, In r (rows db) → UserProject.path r ≠ projectPath).
Proof.
  simpl.
  destruct (getUserProjectByPath projectPath db) as [r|] eqn:E.
  { left. unfold add_user_project. by rewrite E. }
  assert (Hnd : ¬ (∃ r, In r (rows db) ∧ UserProject.path r = projectPath)).
  { intros [r Hr]%getUserProjectByPath_Some. congruence. }
  destruct (decide (fs' projectPath = Accessible true)) as [Hfs | Hfs].
  - right.
    destruct (add_creates encodeProjectPath fs' projectPath projectName now db
                Hnd Hfs) as (row & -> & Hid & Hp & _).
    exists row. repeat split; try done. intros r Hr Hrp. apply Hnd. eauto.
  - left. by rewrite add_not_directory.
Qed.

Lemma dialog_effect (fs' : string → FsEntry) (picked : OpenDialogResult)
    (now : Z) (db : Repository) :
  (add_user_project_by_dialog encodeProjectPath fs' picked now db).1 = db
  ∨ ∃ projectPath,
      (add_user_project_by_dialog encodeProjectPath fs' picked now db).1
      = (add_user_project encodeProjectPath fs' projectPath None now db).1.
Proof.
  unfold add_user_project_by_dialog.
  destruct (canceled picked); [by left|].
  destruct (filePaths picked) as [|projectPath rest]; [by left|]. simpl.
  right. exists projectPath. unfold add_user_project, check_directory.
  destruct (getUserProjectByPath projectPath db); [done|].
  by destruct (fs' projectPath) as [|[]].
Qed.

Lemma remove_effect (projectId : N) (now : Z) (db : Repository) :
  NoDup (map UserProject.id (rows db)) →
  let db' := (remove_user_project projectId now db).1 in
  map UserProject.id (rows db') = map UserProject.id (rows db)
  ∧ map UserProject.path (rows db') = map UserProject.path (rows db)
  ∧ next_id db' = next_id db.
Proof.
  intros Hnd. unfold remove_user_project, deleteUserProject, findOne.
  destruct (List.find _ (rows db)) as [r|] eqn:E; cbn [fst snd];
    [|by repeat split].
  set (e := UserProject.mk _ _ _ _ false _ _).
  destruct (save_existing_ids e now db) as (Hids & Hnext & _).
  split; [done|]. split; [|done].
  assert (Hid : UserProject.id r = projectId).
  { apply find_some in E as [_ H]. by apply bool_decide_eq_true in H. }
  rewrite (save_existing_unique e r now db Hnd); [|simpl; by rewrite Hid].
  rewrite map_map. apply map_ext_in. intros x Hx.
  case_bool_decide as E1; [|done]. subst x. by case_bool_decide.
Qed.

Lemma well_formed_append (db : Repository) (row : UserProject.t) :
  well_formed db →
  UserProject.id row = next_id db →
  (∀ r, In r (rows db) → UserProject.path r ≠ UserProject.path row) →
  well_formed (mkRepository (rows db ++ [row]) (next_id db + 1)).
Proof.
  intros (Hids & Hpaths & Hn & Hrange) Hid Hp. unfold well_formed. simpl.
  rewrite !map_app. simpl. repeat split.
  - apply NoDup_app. split; [done|]. split; [|apply NoDup_singleton].
    intros i Hi ->%list_elem_of_singleton.
    apply list_elem_of_In, in_map_iff in Hi as (r & Hri & Hr).
    apply Hrange in Hr. lia.
  - apply NoDup_app. split; [done|]. split; [|apply NoDup_singleton].
    intros p Hpi ->%list_elem_of_singleton.
    apply list_elem_of_In, in_map_iff in Hpi as (r & Hrp & Hr).
    by apply (Hp r Hr).
  - lia.
  - apply in_app_iff in H as [H | [<- | []]]; [apply Hrange in H|]; lia.
  - apply in_app_iff in H as [H | [<- | []]]; [apply Hrange in H|]; lia.
Qed.

Lemma call_well_formed (c : Call) (db : Repository) :
  well_formed db → well_formed (call encodeProjectPath c db).
Proof.
  intros Hwf. destruct c as [p n entry now | picked entry now | id now]; simpl.
  - destruct (add_effect (fun _ => entry) p n now db)
      as [-> | (row & -> & Hid & Hp & Hnone)]; [done|].
    apply well_formed_append; [done..|]. by rewrite Hp.
  - destruct (dialog_effect (fun _ => entry) picked now db)
      as [-> | (p & ->)]; [done|].
    destruct (add_effect (fun _ => entry) p None now db)
      as [-> | (row & -> & Hid & Hp & Hnone)]; [done|].
    apply well_formed_append; [done..|]. by rewrite Hp.
  - destruct Hwf as (Hids & Hpaths & Hn & Hrange).
    destruct (remove_effect id now db Hids) as (E1 & E2 & E3).
    unfold well_formed. rewrite E1, E2, E3. repeat split; try done.
    all: assert (Hi : In (UserProject.id r) (map UserProject.id (rows db)))
           by (rewrite <- E1; by apply in_map).
    all: apply in_map_iff in Hi as (r' & Hr' & Hin); apply Hrange in Hin; lia.
Qed.

Lemma run_app (cs1 cs2 : list Call) (db : Repository) :
  run encodeProjectPath (cs1 ++ cs2) db
  = run encodeProjectPath cs2 (run encodeProjectPath cs1 db).
Proof. unfold run. apply fold_left_app. Qed.

Lemma run_well_formed (cs : list Call) (db : Repository) :
  well_formed db → well_formed (run encodeProjectPath cs db).
Proof.
  revert db. induction cs as [|c cs IH]; intros db H; [done|].
  apply (IH (call encodeProjectPath c db)). by apply call_well_formed.
Qed.

Lemma call_keeps_paths (c : Call) (db : Repository) (p : string) :
  well_formed db →
  In p (map UserProject.path (rows db)) →
  In p (map UserProject.path (rows (call encodeProjectPath c db))).
Proof.
  intros Hwf Hp.
  destruct c as [p' n entry now | picked entry now | id now]; simpl.
  - destruct (add_effect (fun _ => entry) p' n now db)
      as [-> | (row & -> & _)]; [done|].
    simpl. rewrite map_app. apply in_app_iff. by left.
  - destruct (dialog_effect (fun _ => entry) picked now db)
      as [-> | (p' & ->)]; [done|].
    destruct (add_effect (fun _ => entry) p' None now db)
      as [-> | (row & -> & _)]; [done|].
    simpl. rewrite map_app. apply in_app_iff. by left.
  - destruct Hwf as (Hids & _).
    destruct (remove_effect id now db Hids) as (_ & -> & _). done.
Qed.

Lemma run_keeps_paths (cs : list Call) (db : Repository) (p : string) :
  well_formed db →
  In p (map UserProject.path (rows db)) →
  In p (map UserProject.path (rows (run encodeProjectPath cs db))).
Proof.
  revert db. induction cs as [|c cs IH]; intros db Hwf Hp; [done|].
  apply (IH (call encodeProjectPath c db)).
  - by apply call_well_formed.
  - by apply call_keeps_paths.
Qed.

(** X19.  Whatever adds (by path or by dialog) and removals are made on an
    empty registry, keys stay unique, positive and below the next key, and
    no two records, active or not, have the same path. *)
Theorem registry_stays_well_formed (cs : list Call) :
  let db := run encodeProjectPath cs empty in
  NoDup (map UserProject.id (rows db))
  ∧ NoDup (map UserProject.path (rows db))
  ∧ (∀ r, In r (rows db) → (1 ≤ UserProject.id r < next_id db)%N)
  ∧ (∀ p q, In p (get_user_projects encodeProjectPath db) →
            In q (get_user_projects encodeProjectPath db) →
            Project.databaseId p = Project.databaseId q → p = q).
Proof.
  assert (H : well_formed (run encodeProjectPath cs empty)).
  { apply run_well_formed. repeat split; simpl; try done; constructor. }
  destruct H as (Hids & Hpaths & Hn & Hrange).
  split; [done|]. split; [done|]. split; [done|].
  intros p q (x & <- & Hx)%in_map_iff (y & <- & Hy)%in_map_iff. simpl.
  intros [= E]. f_equal.
  apply getAllUserProjects_In in Hx as [Hx _].
  apply getAllUserProjects_In in Hy as [Hy _].
  by apply (map_unique UserProject.id _ x y Hids).
Qed.

(** X20.  A path that was registered stays taken for good: after any
    further adds and removals, adding it again is refused as a
    duplicate. *)
Theorem registered_path_stays_taken (cs1 cs2 : list Call) (p : string)
    (projectName : option string) (now : Z) :
  let db1 := run encodeProjectPath cs1 empty in
  let db2 := run encodeProjectPath (cs1 ++ cs2) empty in
  (∃ r, In r (rows db1) ∧ UserProject.path r = p) →
  add_user_project encodeProjectPath fs p projectName now db2
  = (db2, Err "Project already exists in the list").
Proof.
  simpl. intros (r & Hr & Hp). apply add_duplicate.
  rewrite run_app.
  assert (Hin : In p (map UserProject.path
                        (rows (run encodeProjectPath cs2
                                 (run encodeProjectPath cs1 empty))))).
  { apply run_keeps_paths.
    - apply run_well_formed. repeat split; simpl; try done; constructor.
    - apply in_map_iff. by exists r. }
  apply in_map_iff in Hin as (x & Hx & Hin). by exists x.
Qed.

Lemma filter_length_pos {A} (f : A → bool) (l : list A) :
  (0 < length (List.filter f l))%nat ↔ ∃ x, In x l ∧ f x = true.
Proof.
  split.
  - destruct (List.filter f l) as [|x l'] eqn:E; simpl; [lia|]. intros _.
    exists x. apply filter_In. rewrite E. by left.
  - intros (x & Hx & Hf).
    assert (H : In x (List.filter f l)) by (by apply filter_In).
    destruct (List.filter f l); [done | simpl; lia].
Qed.

Lemma projectPathExists_spec (p : string) (db : Repository) :
  projectPathExists p db = true
  ↔ ∃ x, In x (rows db) ∧ UserProject.path x = p
         ∧ UserProject.is_active x = true.
Proof.
  unfold projectPathExists. rewrite bool_decide_eq_true, filter_length_pos.
  split; intros (x & Hx & H); exists x.
  - apply andb_true_iff in H as [H1%bool_decide_eq_true H2]. done.
  - destruct H as [H1 H2]. split; [done|].
    by rewrite bool_decide_eq_true_2, H2.
Qed.

(** X21.  [projectPathExists] answers for the listed projects: it holds
    exactly when a listed project has the path.  It implies that the
    duplicate check of an add finds a record, but not conversely: after the
    soft removal of the only record with a path, the path does not exist for
    [projectPathExists] while the add still finds it. *)
Theorem path_exists_follows_listing (p : string) (db : Repository) :
  (projectPathExists p db = true
   ↔ ∃ x, In x (getAllUserProjects db) ∧ UserProject.path x = p)
  ∧ (projectPathExists p db = true → is_Some (getUserProjectByPath p db))
  ∧ (∀ projectId now r,
       well_formed db →
       getUserProjectById projectId db = Some r →
       UserProject.path r = p →
       let db' := (remove_user_project projectId now db).1 in
       projectPathExists p db' = false
       ∧ is_Some (getUserProjectByPath p db')).
Proof.
  split.
  { rewrite projectPathExists_spec. split.
    - intros (x & Hx & Hp & Ha). exists x. split; [|done].
      by apply getAllUserProjects_In.
    - intros (x & [Hx Ha]%getAllUserProjects_In & Hp). by exists x. }
  split.
  { intros (x & Hx & Hp & _)%projectPathExists_spec.
    destruct (proj1 (getUserProjectByPath_Some p db)) as [r Hr]; by eauto. }
  intros projectId now r (Hids & Hpaths & Hn & Hrange) Hfind Hp.
  unfold getUserProjectById, findOne in Hfind.
  pose proof Hfind as Hf. apply find_some in Hf as [Hin Hid].
  apply bool_decide_eq_true in Hid.
  destruct (remove_effect projectId now db Hids) as (E1 & E2 & E3).
  unfold remove_user_project, deleteUserProject, findOne in *.
  rewrite Hfind in *. cbn [fst snd] in *.
  set (e := UserProject.mk _ _ _ _ false _ _) in *.
  destruct (save_existing_keeps_path e now db r Hin eq_refl eq_refl)
    as (x & Hx & Hxid & Hxp).
  simpl in Hxid, Hxp. split.
  - destruct (projectPathExists p (save_existing e now db)) eqn:Ex; [|done].
    apply projectPathExists_spec in Ex as (y & Hy & Hyp & Hya).
    assert (y = x) as ->.
    { apply (map_unique UserProject.path (rows (save_existing e now db)));
        [by rewrite E2 | done | done | congruence]. }
    rewrite (save_existing_rows e now db x Hx) in Hya; done.
  - destruct (proj1 (getUserProjectByPath_Some p (save_existing e now db)))
      as [r' Hr']; [|by eauto].
    exists x. split; [done | congruence].
Qed.

(** X22.  With unique keys and paths, a hard delete removes the record
    with the key and no other; its path is free again, so that an add of
    the path succeeds, with a key that no stored record had, the deleted
    one included. *)
Theorem hard_delete_frees_path (projectId : N) (db : Repository)
    (r : UserProject.t) (projectName : option string) (now : Z) :
  well_formed db →
  getUserProjectById projectId db = Some r →
  let db' := hardDeleteUserProject projectId db in
  getUserProjectById projectId db' = None
  ∧ getUserProjectByPath (UserProject.path r) db' = None
  ∧ (∀ x, In x (rows db') ↔ In x (rows db) ∧ x ≠ r)
  ∧ well_formed db'
  ∧ (fs (UserProject.path r) = Accessible true →
     ∃ project,
       (add_user_project encodeProjectPath fs (UserProject.path r)
          projectName now db').2 = Ok project
       ∧ Project.databaseId project = Some (next_id db)
       ∧ ∀ x, In x (rows db) → UserProject.id x ≠ next_id db).
Proof.
  intros (Hids & Hpaths & Hn & Hrange) Hfind.
  unfold getUserProjectById, findOne in Hfind.
  pose proof Hfind as Hf. apply find_some in Hf as [Hin Hid].
  apply bool_decide_eq_true in Hid.
  assert (Hrows : ∀ x, In x (rows (hardDeleteUserProject projectId db))
                       ↔ In x (rows db) ∧ x ≠ r).
  { intros x. unfold hardDeleteUserProject. simpl. rewrite filter_In.
    rewrite negb_true_iff, bool_decide_eq_false. split.
    - intros [Hx Hne]. split; [done|]. intros ->. done.
    - intros [Hx Hne]. split; [done|]. intros Hxid. apply Hne.
      apply (map_unique UserProject.id (rows db)); [done..|congruence]. }
  assert (Hnone : ¬ (∃ x, In x (rows (hardDeleteUserProject projectId db))
                          ∧ UserProject.path x = UserProject.path r)).
  { intros (x & [Hx Hne]%Hrows & Hxp). apply Hne.
    by apply (map_unique UserProject.path (rows db)). }
  cbv zeta. split.
  { unfold getUserProjectById, findOne. apply find_none_iff.
    intros x [Hx Hne]%Hrows. apply bool_decide_eq_false. intros Hxid.
    apply Hne. apply (map_unique UserProject.id (rows db)); [done..|congruence]. }
  split; [by apply getUserProjectByPath_None|].
  split; [exact Hrows|].
  split.
  { unfold well_formed, hardDeleteUserProject. simpl. repeat split.
    - apply NoDup_fmap_2_strong.
      + intros x y Hx%list_elem_of_In Hy%list_elem_of_In E.
        apply filter_In in Hx as [Hx _]. apply filter_In in Hy as [Hy _].
        by apply (map_unique UserProject.id (rows db)).
      + apply NoDup_ListNoDup, List.NoDup_filter, NoDup_ListNoDup.
        by eapply NoDup_fmap_1.
    - apply NoDup_fmap_2_strong.
      + intros x y Hx%list_elem_of_In Hy%list_elem_of_In E.
        apply filter_In in Hx as [Hx _]. apply filter_In in Hy as [Hy _].
        by apply (map_unique UserProject.path (rows db)).
      + apply NoDup_ListNoDup, List.NoDup_filter, NoDup_ListNoDup.
        by eapply NoDup_fmap_1.
    - done.
    - apply filter_In in H as [H _]. apply Hrange in H. lia.
    - apply filter_In in H as [H _]. apply Hrange in H. lia. }
  intros Hfs.
  destruct (add_creates encodeProjectPath fs (UserProject.path r) projectName
              now (hardDeleteUserProject projectId db) Hnone Hfs)
    as (row & E & Hrid & _).
  rewrite E. simpl. eexists. split; [reflexivity|]. simpl.
  split; [by rewrite Hrid|].
  intros x Hx%Hrange. lia.
Qed.

(** *** From the project panel to the registry and back *)

(** X23.  Removing a listed user project from the panel: once confirmed,
    the panel sends the removal of the registry key of the project and
    reloads the lists; the registry accepts that removal; afterwards the
    project is not listed any more and every other listed project still
    is.  Without confirmation, or for a project without a registry key,
    nothing is sent and nothing changes. *)
Theorem panel_removal (project : Project.t) (db : Repository) (now : Z)
    (claudeReply userReply : option (list Project.t)) (st : Layout.State) :
  well_formed db →
  In project (get_user_projects encodeProjectPath db) →
  ∃ databaseId,
    Project.databaseId project = Some databaseId
    ∧ Layout.handleRemoveUserProject project true true claudeReply userReply st
      = ((Layout.loadProjects claudeReply userReply st).1,
         Layout.RemoveUserProject databaseId
         :: map Layout.Api (Layout.loadProjects claudeReply userReply st).2)
    ∧ Layout.handleRemoveUserProject project true false claudeReply userReply st
      = (st, [Layout.RemoveUserProject databaseId])
    ∧ Layout.handleRemoveUserProject project false true claudeReply userReply st
      = (st, [])
    ∧ (remove_user_project databaseId now db).2 = Ok true
    ∧ ¬ In project
          (get_user_projects encodeProjectPath
             (remove_user_project databaseId now db).1)
    ∧ (∀ q, In q (get_user_projects encodeProjectPath db) → q ≠ project →
            In q (get_user_projects encodeProjectPath
                    (remove_user_project databaseId now db).1)).
Proof.
  intros (Hids & Hpaths & Hn & Hrange) (r & <- & Hr)%in_map_iff.
  apply getAllUserProjects_In in Hr as [Hr Hra].
  exists (UserProject.id r). split; [done|].
  assert (Hz : (UserProject.id r =? 0)%N = false).
  { apply N.eqb_neq. apply Hrange in Hr. lia. }
  unfold Layout.handleRemoveUserProject. simpl. rewrite Hz.
  destruct (Layout.loadProjects claudeReply userReply st) as [st' calls] eqn:El.
  split; [done|]. split; [done|]. split; [done|].
  destruct (find_finds (fun x => bool_decide (UserProject.id x = UserProject.id r))
              (rows db) r Hr) as (r0 & Hf); [by apply bool_decide_eq_true|].
  assert (r0 = r) as ->.
  { symmetry. by apply (find_unique_id _ _ r0 r Hids Hf). }
  unfold remove_user_project, deleteUserProject, findOne. rewrite Hf.
  cbn [fst snd]. set (e := UserProject.mk _ _ _ _ false _ _).
  split; [done|]. split.
  - intros (y & E & Hy)%in_map_iff.
    apply getAllUserProjects_In in Hy as [Hy Hya].
    injection E as _ _ _ _ Eid.
    rewrite (save_existing_rows e now db y Hy) in Hya; done.
  - intros q (y & <- & Hy)%in_map_iff Hne.
    apply getAllUserProjects_In in Hy as [Hy Hya].
    apply in_map. apply getAllUserProjects_In. split; [|done].
    apply save_existing_others; [|done]. simpl. intros E.
    apply Hne. f_equal. by apply (map_unique UserProject.id (rows db)).
Qed.

(** X24.  Adding a project from the panel: when the dialog handler added
    the project and the lists are reloaded from the registry, the
    registered list on screen is the new listing and holds the new
    project.  When the dialog was canceled or the request was rejected,
    the state is left as it was and nothing is reloaded. *)
Theorem panel_add (picked : OpenDialogResult) (now : Z) (db db' : Repository)
    (project : Project.t) (claudeProjects : list Project.t)
    (st : Layout.State) :
  add_user_project_by_dialog encodeProjectPath fs picked now db
  = (db', Ok (DialogAdded project)) →
  let listed := get_user_projects encodeProjectPath db' in
  let res := Layout.handleAddUserProject
               (Some (Layout.mkAddReply false (Some project)))
               (Some claudeProjects) (Some listed) st in
  Layout.userProjects res.1 = listed
  ∧ In project (Layout.userProjects res.1)
  ∧ Layout.projects res.1 = listed ++ claudeProjects
  ∧ res.2 = [Layout.AddUserProjectByDialog; Layout.Api ListProjects;
             Layout.Api GetUserProjects]
  ∧ (∀ c u, Layout.handleAddUserProject
              (Some (Layout.mkAddReply true None)) c u st
            = (st, [Layout.AddUserProjectByDialog]))
  ∧ (∀ c u, Layout.handleAddUserProject None c u st
            = (st, [Layout.AddUserProjectByDialog])).
Proof.
  intros H. cbv zeta.
  assert (Hin : In project (get_user_projects encodeProjectPath db')).
  { unfold add_user_project_by_dialog in H.
    destruct (canceled picked || _); [discriminate H|].
    destruct (filePaths picked) as [|projectPath rest]; [discriminate H|].
    destruct (getUserProjectByPath projectPath db); [discriminate H|].
    destruct (fs projectPath) as [|[]]; simpl in H; try discriminate H.
    injection H as <- <-. unfold get_user_projects. apply in_map.
    apply getAllUserProjects_In. simpl. split; [|done].
    apply in_app_iff. right. by left. }
  unfold Layout.handleAddUserProject. simpl.
  repeat split; done.
Qed.

End RegistryMore.

(** ** The small workspace again *)

Section WorkedScenarioMore.
Import Layout Run UserProjectService UserProjectsApi RegistryRun Scenario.

Lemma registered_well_formed : well_formed registered.
Proof.
  unfold well_formed. simpl. repeat split; try lia.
  - apply NoDup_singleton.
  - apply NoDup_singleton.
  - by destruct H as [<- | []].
  - by destruct H as [<- | []].
Qed.

(** an update may give a record the path of another one, which no add
    would accept *)
Example update_path_collision :
  let db := (add_user_project encodeProjectPath (fun _ => Accessible true)
               "/b" None (now + 1) registered).1 in
  map UserProject.path
    (rows (update_user_project
             (UserProjectUpdateData.mk 2 None (Some "/a") None None)
             (now + 2) db).1)
  = ["/a"; "/a"].
Proof. reflexivity. Qed.

(** a rejected registry request after the discovery list arrived *)
Lemma loadProjects_rejected_witness :
  (Some [P2] = None ∨ @None (list Project.t) = None)
  ∧ userProjects (loadProjects (Some [P2]) None loaded).1 = [P1]
  ∧ claudeProjects (loadProjects (Some [P2]) None loaded).1 = [P2].
Proof.
  assert (H : Some [P2] = None ∨ @None (list Project.t) = None) by (by right).
  split; [exact H|].
  destruct (loadProjects_rejected (Some [P2]) None loaded H)
    as (_ & _ & H1 & H2 & _).
  by rewrite H1, H2.
Defined.

Lemma merged_list_kept_witness :
  projects placeholder_selected
  = userProjects placeholder_selected ++ claudeProjects placeholder_selected.
Proof.
  apply (merged_list_kept placeholder_selected _
           (proj1 (placeholder_selected_reachable ∅))).
Defined.

Lemma selection_kept_witness :
  is_Some (currentSession placeholder_selected)
  ∧ is_Some (currentProject placeholder_selected).
Proof.
  assert (H : is_Some (currentSession placeholder_selected)) by (by eexists).
  split; [exact H|].
  by apply (selection_kept placeholder_selected _
              (proj1 (placeholder_selected_reachable ∅))).
Defined.

Lemma history_panel_witness :
  (length (placeholders (allSessions placeholder_selected)) ≤ 1)%nat.
Proof.
  apply (history_panel placeholder_selected _
           (proj1 (placeholder_selected_reachable ∅))).
Defined.

(** three callbacks after the new-session button *)
Lemma callbacks_keep_view_witness :
  (currentProject placeholder_selected = Some P1
   ∧ currentSession placeholder_selected = Some placeholder
   ∧ truthy (Session.isTemporary placeholder) = true)
  ∧ ClaudeCodeSession_key
      (callbacks [("R1", now + 4000); ("R2", now + 9000); ("R1", now + 9500)]%Z
         placeholder_selected)
    = Some "temp-P1".
Proof.
  split; [by repeat split|].
  apply (callbacks_keep_view _ placeholder_selected P1 placeholder
           eq_refl eq_refl eq_refl).
Defined.

Lemma callback_keeps_history_witness :
  (currentProject placeholder_selected = Some P1
   ∧ currentSession placeholder_selected = Some placeholder
   ∧ truthy (Session.isTemporary placeholder) = true)
  ∧ map Session.id
      (sessions (onSessionCreated "R1" (now + 9000) reconciled))
    = map Session.id (sessions reconciled).
Proof.
  split; [by repeat split|].
  apply (callback_keeps_history "R1" (now + 4000) (now + 9000)
           placeholder_selected P1 placeholder eq_refl eq_refl eq_refl).
Defined.

(** [/a] is added to the empty registry *)
Lemma add_then_found_witness :
  ((∀ r, In r (rows empty) → UserProject.path r ≠ "/a")
   ∧ fs "/a" = Accessible true)
  ∧ is_Some (getUserProjectByPath "/a" registered).
Proof.
  assert (H : ∀ r, In r (rows empty) → UserProject.path r ≠ "/a")
    by (intros r []).
  split; [by split|].
  destruct (add_then_found encodeProjectPath fs "/a" None now empty H eq_refl)
    as (row & project & _ & _ & Hfound & _).
  exists row. exact Hfound.
Defined.

Lemma recorded_name_witness :
  (add_user_project encodeProjectPath fs "/a" None now empty).2
  = Ok (to_project encodeProjectPath
          (UserProject.mk 1 "a" "/a" (Some "User project: a") true now now))
  ∧ ∃ pre, "/a" = pre +:+ last_segment "/a".
Proof.
  split; [reflexivity|].
  destruct (recorded_name encodeProjectPath fs "/a" None now empty _ eq_refl)
    as (_ & pre & H & _).
  by exists pre.
Defined.

Lemma removal_repeated_witness :
  (NoDup (map UserProject.id (rows registered))
   ∧ is_Some (getUserProjectById 1 registered))
  ∧ (remove_user_project 1 (now + 2)
       (remove_user_project 1 (now + 1) registered).1).2
    = Ok true.
Proof.
  assert (H : NoDup (map UserProject.id (rows registered)))
    by apply registered_well_formed.
  split; [split; [exact H | by eexists]|].
  apply (removal_repeated encodeProjectPath 1 (now + 1) (now + 2) registered
           _ H eq_refl).
Defined.

Lemma registered_path_stays_taken_witness :
  (∃ r, In r (rows (run encodeProjectPath
                      [AddByPath "/a" None (Accessible true) now] empty))
        ∧ UserProject.path r = "/a")
  ∧ (add_user_project encodeProjectPath fs "/a" None (now + 5)
       (run encodeProjectPath
          ([AddByPath "/a" None (Accessible true) now]
           ++ [Remove 1 (now + 1)]) empty)).2
    = Err "Project already exists in the list".
Proof.
  assert (H : ∃ r, In r (rows (run encodeProjectPath
                                 [AddByPath "/a" None (Accessible true) now]
                                 empty))
                   ∧ UserProject.path r = "/a").
  { eexists. split; [by left | reflexivity]. }
  split; [exact H|].
  by rewrite (registered_path_stays_taken encodeProjectPath fs
                [AddByPath "/a" None (Accessible true) now]
                [Remove 1 (now + 1)] "/a" None (now + 5) H).
Defined.

Lemma hard_delete_frees_path_witness :
  (well_formed registered ∧ is_Some (getUserProjectById 1 registered))
  ∧ getUserProjectByPath "/a" (hardDeleteUserProject 1 registered) = None.
Proof.
  split; [split; [apply registered_well_formed | by eexists]|].
  apply (hard_delete_frees_path encodeProjectPath fs 1 registered _ None now
           registered_well_formed eq_refl).
Defined.

Lemma panel_removal_witness :
  (well_formed registered
   ∧ get_user_projects encodeProjectPath registered
     = [Project.mk "-a" (Some "a") "/a" [] 1730000000 (Some true) (Some 1%N)])
  ∧ ∃ databaseId,
      (remove_user_project databaseId (now + 1) registered).2 = Ok true.
Proof.
  split; [split; [apply registered_well_formed | reflexivity]|].
  destruct (panel_removal encodeProjectPath
              (Project.mk "-a" (Some "a") "/a" [] 1730000000 (Some true)
                 (Some 1%N))
              registered (now + 1) None None initial registered_well_formed)
    as (databaseId & _ & _ & _ & _ & H & _); [by left|].
  by exists databaseId.
Defined.

Lemma panel_add_witness :
  In (Project.mk "-a" (Some "a") "/a" [] 1730000000 (Some true) (Some 1%N))
    (userProjects
       (handleAddUserProject
          (Some (mkAddReply false
                   (Some (Project.mk "-a" (Some "a") "/a" [] 1730000000
                            (Some true) (Some 1%N)))))
          (Some [P2])
          (Some (get_user_projects encodeProjectPath registered))
          initial).1).
Proof.
  apply (panel_add encodeProjectPath fs (mkOpenDialogResult false ["/a"]) now
           empty registered _ [P2] initial eq_refl).
Defined.

End WorkedScenarioMore.

(** ** What the panels show *)

Section PanelFacts.
Import Layout Items UserProjectService UserProjectsApi RegistryRun.

Variable encodeProjectPath : string → string.

Lemma add_named (fs' : string → FsEntry) (projectPath : string)
    (projectName : option string) (now : Z) (db : Repository) :
  named db →
  named (add_user_project encodeProjectPath fs' projectPath projectName
           now db).1.
Proof.
  intros Hn. unfold add_user_project.
  destruct (getUserProjectByPath projectPath db); [done|].
  destruct (check_directory fs' projectPath); [|done]. simpl.
  intros r [Hr | [<- | []]]%in_app_iff; [by apply Hn|]. simpl.
  destruct projectName as [[|ch given]|]; simpl;
    destruct (nonempty (last_segment projectPath)) eqn:E; try done;
    by apply nonempty_spec.
Qed.

Lemma call_named (c : Call) (db : Repository) :
  well_formed db → named db → named (call encodeProjectPath c db).
Proof.
  intros Hwf Hn. destruct c as [p n entry now | picked entry now | id now];
    simpl.
  - by apply add_named.
  - destruct (dialog_effect encodeProjectPath (fun _ => entry) picked now db)
      as [-> | (p & ->)]; [done|]. by apply add_named.
  - destruct Hwf as (Hids & _).
    unfold remove_user_project, deleteUserProject, findOne.
    destruct (List.find _ (rows db)) as [r|] eqn:E; cbn [fst snd]; [|done].
    assert (Hid : UserProject.id r = id).
    { apply find_some in E as [_ H]. by apply bool_decide_eq_true in H. }
    assert (Hr : In r (rows db)) by (by apply find_some in E as [? _]).
    intros x. rewrite (save_existing_unique _ r now db Hids);
      [|simpl; by rewrite Hid].
    intros (y & <- & Hy)%in_map_iff.
    case_bool_decide; [|by apply Hn]. subst y.
    case_bool_decide; simpl; by apply Hn.
Qed.

Lemma run_named (cs : list Call) (db : Repository) :
  well_formed db → named db → named (run encodeProjectPath cs db).
Proof.
  revert db. induction cs as [|c cs IH]; intros db Hwf Hn; [done|].
  apply (IH (call encodeProjectPath c db)).
  - by apply call_well_formed.
  - by apply call_named.
Qed.

(** X25.  For every project listed from a registry that was built by adds
    and removals, the entry of the project panel shows the recorded name,
    which is not empty; the path and the identifier are used only for a
    project without a name. *)
Theorem panel_shows_recorded_name (cs : list Call) (project : Project.t) :
  In project (get_user_projects encodeProjectPath
                (run encodeProjectPath cs empty)) →
  ∃ name,
    Project.name project = Some name
    ∧ name ≠ ""
    ∧ UserProjectItem_projectName project = name.
Proof.
  intros (r & <- & Hr)%in_map_iff.
  apply getAllUserProjects_In in Hr as [Hr _].
  assert (Hn : UserProject.name r ≠ "").
  { apply (run_named cs empty); [| |done].
    - repeat split; simpl; try done; constructor.
    - intros x []. }
  exists (UserProject.name r). split; [done|]. split; [done|].
  unfold UserProjectItem_projectName. simpl.
  by destruct (UserProject.name r).
Qed.

Lemma fresh_objects_fields (l : list Session.t) (n : nat) :
  map (with_oid 0) (fresh_objects n l) = map (with_oid 0) l.
Proof.
  revert n. induction l as [|x l IH]; intros n; simpl; [done|].
  by rewrite IH.
Qed.

Lemma fresh_objects_ids (l : list Session.t) (n : nat) :
  map Session.id (fresh_objects n l) = map Session.id l.
Proof.
  revert n. induction l as [|x l IH]; intros n; simpl; [done|].
  by rewrite IH.
Qed.

(** X26.  Selecting a project clears the session selection, so that the
    conversation view is not rendered, and puts the reply of the session
    request in the history panel: the same sessions in the same order (as
    new objects), or no session when the request was rejected.  The
    project lists and the search text are untouched. *)
Theorem project_select_shows_history (project : Project.t)
    (reply : option (list Session.t)) (st : State) :
  let st' := (handleProjectSelect project reply st).1 in
  currentSession st' = None
  ∧ ClaudeCodeSession_key st' = None
  ∧ allSessions st' = sessions st'
  ∧ map (with_oid 0) (sessions st') = map (with_oid 0) (default [] reply)
  ∧ map Session.id (allSessions st') = map Session.id (default [] reply)
  ∧ userProjects st' = userProjects st
  ∧ claudeProjects st' = claudeProjects st
  ∧ searchQuery st' = searchQuery st
  ∧ (handleProjectSelect project reply st).2
    = [GetProjectSessions (Project.id project);
       SetSetting "ui.currentProject.id" (Project.id project)].
Proof.
  unfold handleProjectSelect, loadSessions.
  destruct reply as [l|]; simpl; unfold allSessions; simpl.
  - repeat split; try done;
      [apply fresh_objects_fields | apply fresh_objects_ids].
  - repeat split; done.
Qed.

End PanelFacts.

Section PanelScenario.
Import Layout Items UserProjectService UserProjectsApi RegistryRun Scenario.

(** the entry of [/a] shows the name [a] *)
Lemma panel_shows_recorded_name_witness :
  UserProjectItem_projectName
    (Project.mk "-a" (Some "a") "/a" [] 1730000000 (Some true) (Some 1%N))
  = "a".
Proof.
  destruct (panel_shows_recorded_name encodeProjectPath
              [AddByPath "/a" None (Accessible true) now]
              (Project.mk "-a" (Some "a") "/a" [] 1730000000 (Some true)
                 (Some 1%N)))
    as (name & Hname & _ & ->); [by left|].
  by injection Hname.
Defined.

End PanelScenario.
